(** * Beeper Desktop Go SDK: the client request pipeline

    A shallow embedding of the request pipeline of the SDK
    (error taxonomy, retry engine, query encoder, pagination iterator,
    client construction) together with the properties the specification
    states about it.

    Conventions of the embedding:
    - Go [int], [int64] and [time.Duration] values are [Z]; a duration is
      a number of nanoseconds, as in package [time].
    - A Go [error] is a value of the inductive type [error]; the nil error
      is [None] in an [option error].
    - Stateful code (closures, the network, the context, the clock) is
      written in state-passing style over a world type [W].
    - Go maps with string keys are [gmap string _]; [url.Values] is
      [gmap string (list string)]. *)

From Stdlib Require Import ZArith String Ascii List Bool Lia.
From Stdlib Require Import DecimalString DecimalPos DecimalZ SpecFloat.
From stdpp Require Import gmap strings list.

Set Warnings "-register-all".

Open Scope string_scope.
Open Scope list_scope.
Open Scope Z_scope.

(** [strconv.FormatInt(i, 10)], also the rendering of [%d]. *)
Definition FormatInt (i : Z) : string := NilZero.string_of_int (Z.to_int i).

(** [strconv.FormatBool]. *)
Definition FormatBool (b : bool) : string := if b then "true" else "false".

(** * Package beeperdesktop: errors.go *)

(** [type APIError struct]. A nil [Details] map reads as the empty map. *)
Record APIError := mkAPIError
  { Status : Z;
    Message : string;
    Code : string;
    Details : gmap string string }.

(** The dynamic types an [error] value of the SDK can have.  Each typed
    error of errors.go is one constructor (the source embeds [APIError]
    in one struct per kind); [errorString] and [wrapError] are the values
    made by [errors.New] / [fmt.Errorf] without and with [%w];
    [Canceled] and [DeadlineExceeded] are the two errors of package
    [context]. *)
Inductive error : Type :=
| errorString (s : string)
| wrapError (msg : string) (err : option error)
| Canceled
| DeadlineExceeded
| APIErrorPtr (e : APIError)
| APIConnectionError (Message : string) (Cause : option error)
| APIConnectionTimeoutError (Message : string) (Cause : option error)
| BadRequestError (e : APIError)
| AuthenticationError (e : APIError)
| PermissionDeniedError (e : APIError)
| NotFoundError (e : APIError)
| ConflictError (e : APIError)
| UnprocessableEntityError (e : APIError)
| RateLimitError (e : APIError)
| InternalServerError (e : APIError).

(** [func (e *APIError) Error() string]. *)
Definition APIError_Error (e : APIError) : string :=
  if String.eqb (Code e) "" then
    "API error " +:+ FormatInt (Status e) +:+ ": " +:+ Message e
  else
    "API error " +:+ FormatInt (Status e) +:+ " (" +:+ Code e +:+ "): " +:+ Message e.

(** The [Error()] method of every dynamic type; the embedding structs
    inherit the method of the struct they embed. *)
Fixpoint Error (err : error) : string :=
  match err with
  | errorString s => s
  | wrapError msg _ => msg
  | Canceled => "context canceled"
  | DeadlineExceeded => "context deadline exceeded"
  | APIErrorPtr e
  | BadRequestError e | AuthenticationError e | PermissionDeniedError e
  | NotFoundError e | ConflictError e | UnprocessableEntityError e
  | RateLimitError e | InternalServerError e => APIError_Error e
  | APIConnectionError m c | APIConnectionTimeoutError m c =>
      match c with
      | Some cause =>
          "connection error: " +:+ m +:+ " (caused by: " +:+ Error cause +:+ ")"
      | None => "connection error: " +:+ m
      end
  end.

(** [fmt.Errorf(prefix + "%w", err)]: the message is computed when the
    error is made; a nil operand prints as [%!w(<nil>)]. *)
Definition Errorf_w (prefix : string) (err : option error) : error :=
  wrapError
    (prefix +:+ match err with Some e => Error e | None => "%!w(<nil>)" end)
    err.

(** [func IsRetryableError(err error) bool]: a type switch on the dynamic
    type of [err]. *)
Definition IsRetryableError (err : error) : bool :=
  match err with
  | APIConnectionError _ _ | APIConnectionTimeoutError _ _ => true
  | ConflictError _ | RateLimitError _ | InternalServerError _ => true
  | APIErrorPtr apiErr => (Status apiErr =? 408) || (500 <=? Status apiErr)
  | _ => false
  end.

(** ** client.go: handleErrorResponse *)

(** The anonymous struct [errorResp] that [json.Unmarshal] fills. *)
Record errorResp := mkErrorResp
  { resp_Error : string;
    resp_Code : string;
    resp_Details : gmap string string }.

Section HandleErrorResponse.

(** [json.Unmarshal(body, &errorResp)] with its error discarded: the
    content of [errorResp] afterwards (all fields zero when nothing
    could be decoded).  The JSON decoder is the standard library's and
    is a parameter here. *)
Variable json_Unmarshal : string -> errorResp.

Definition handleErrorResponse (statusCode : Z) (body : string) : error :=
  let errorResp := json_Unmarshal body in
  let message :=
    if String.eqb (resp_Error errorResp) "" then body
    else resp_Error errorResp in
  let apiError :=
    {| Status := statusCode; Message := message;
       Code := resp_Code errorResp; Details := resp_Details errorResp |} in
  if statusCode =? 400 then BadRequestError apiError
  else if statusCode =? 401 then AuthenticationError apiError
  else if statusCode =? 403 then PermissionDeniedError apiError
  else if statusCode =? 404 then NotFoundError apiError
  else if statusCode =? 409 then ConflictError apiError
  else if statusCode =? 422 then UnprocessableEntityError apiError
  else if statusCode =? 429 then RateLimitError apiError
  else if 500 <=? statusCode then InternalServerError apiError
  else APIErrorPtr apiError.

End HandleErrorResponse.

(** The taxonomy table of the specification: the kind of a typed error
    and the table's two columns. *)
Inductive Kind :=
| KBadRequest | KAuthentication | KPermissionDenied | KNotFound | KConflict
| KUnprocessableEntity | KRateLimit | KInternalServerError
| KConnectionError | KConnectionTimeout | KGeneric | KNotAPI.

Definition kind_of (err : error) : Kind :=
  match err with
  | BadRequestError _ => KBadRequest
  | AuthenticationError _ => KAuthentication
  | PermissionDeniedError _ => KPermissionDenied
  | NotFoundError _ => KNotFound
  | ConflictError _ => KConflict
  | UnprocessableEntityError _ => KUnprocessableEntity
  | RateLimitError _ => KRateLimit
  | InternalServerError _ => KInternalServerError
  | APIConnectionError _ _ => KConnectionError
  | APIConnectionTimeoutError _ _ => KConnectionTimeout
  | APIErrorPtr _ => KGeneric
  | _ => KNotAPI
  end.

(** The shared fields of a typed API error. *)
Definition api_fields (err : error) : option APIError :=
  match err with
  | APIErrorPtr e
  | BadRequestError e | AuthenticationError e | PermissionDeniedError e
  | NotFoundError e | ConflictError e | UnprocessableEntityError e
  | RateLimitError e | InternalServerError e => Some e
  | _ => None
  end.

(** Rows of the table for the statuses the specification lists:
    the kind and the Retryable column. *)
Definition taxonomy (status : Z) : option (Kind * bool) :=
  if status =? 400 then Some (KBadRequest, false)
  else if status =? 401 then Some (KAuthentication, false)
  else if status =? 403 then Some (KPermissionDenied, false)
  else if status =? 404 then Some (KNotFound, false)
  else if status =? 409 then Some (KConflict, true)
  else if status =? 422 then Some (KUnprocessableEntity, false)
  else if status =? 429 then Some (KRateLimit, true)
  else if (500 <=? status) && (status <=? 599) then
    Some (KInternalServerError, true)
  else None.

Definition listed_statuses : list Z :=
  [400; 401; 403; 404; 409; 422; 429; 500; 502; 503].

(** * Package internal *)

Module internal.

(** ** retry.go *)

(** [type RetryLogic struct]; the two delays are [time.Duration]s, in
    nanoseconds. *)
Record RetryLogic := mkRetryLogic
  { maxRetries : Z;
    baseDelay : Z;
    maxDelay : Z }.

Definition Millisecond : Z := 1000000.
Definition Second : Z := 1000 * Millisecond.

(** [func NewRetryLogic(maxRetries int) *RetryLogic]. *)
Definition NewRetryLogic (maxRetries : Z) : RetryLogic :=
  {| maxRetries := maxRetries;
     baseDelay := 250 * Millisecond;
     maxDelay := 10 * Second |}.

Definition MinInt64 : Z := - 2 ^ 63.
Definition MaxInt64 : Z := 2 ^ 63 - 1.

(** The integer part of [float64(b) * math.Pow(2, float64(attempt))].
    For a base delay with at most 53 significant bits (250ms has 21) the
    conversion [float64(b)] is exact, [math.Pow(2, n)] is the exact power
    of two, and the product only shifts the exponent, so the float64
    product is the real number [b * 2^attempt] as long as it is finite
    (and +Inf, which fits no integer, beyond); a negative [attempt]
    divides, and the conversion to an integer discards the fraction. *)
Definition scaled (b attempt : Z) : Z :=
  if 0 <=? attempt then b * 2 ^ attempt else Z.quot b (2 ^ (- attempt)).

(** The conversion [time.Duration(x)] of a float64 to int64.  When the
    value does not fit, "the conversion succeeds but the result value is
    implementation-dependent" (Go language specification, Conversions);
    [overflow] is that implementation-dependent result.  A product that
    has overflowed float64 to +Inf does not fit either. *)
Definition Duration_of_float64 (overflow : Z) (x : Z) : Z :=
  if (MinInt64 <=? x) && (x <=? MaxInt64) then x else overflow.

(** The result of an out-of-range conversion on amd64, where the
    compiler emits CVTTSD2SQ: the "integer indefinite" value. *)
Definition overflow_amd64 : Z := MinInt64.

(** The same on arm64, where FCVTZS saturates. *)
Definition overflow_arm64 : Z := MaxInt64.

(** [func isRetryableError(err error) bool].  The body of the source
    function is the single statement [return false], below the comment
    "Connection errors are retryable / HTTP status codes 408, 409, 429,
    5xx are retryable / Everything else is not retryable". *)
Definition isRetryableError (err : error) : bool := false.

(** What the retry engine does that an observer can count. *)
Inductive event :=
| Invoke
| Sleep (delay : Z).

(** Which case the [select] between [time.After(delay)] and
    [ctx.Done()] took. *)
Inductive wake := TimerFired | CtxDone.

Definition is_Invoke (ev : event) : bool :=
  match ev with Invoke => true | Sleep _ => false end.

(** How many times the operation was invoked. *)
Definition invocations (tr : list event) : nat :=
  length (List.filter is_Invoke tr).

Section Retry.

(** The state of everything outside the retry engine: what the
    operation closes over, the context, the clock. *)
Context {W : Type}.

(** [ctx.Err()] in a world: nil until the context is done.  The
    channel [ctx.Done()] is closed exactly when [ctx.Err()] is not
    nil. *)
Variable ctx_Err : W -> option error.

(** The blocking [select] on [time.After(delay)] and [ctx.Done()]:
    the case taken and the world when it returns. *)
Variable select_After_Done : Z -> W -> wake * W.

(** The implementation-dependent result of an out-of-range
    float64-to-int64 conversion. *)
Variable overflow : Z.

(** [func (r *RetryLogic) calculateDelay(attempt int) time.Duration]. *)
Definition calculateDelay (r : RetryLogic) (attempt : Z) : Z :=
  let delay := Duration_of_float64 overflow (scaled (baseDelay r) attempt) in
  if maxDelay r <? delay then maxDelay r else delay.

(** The loop of [Do], with [n] the number of iterations left before
    [attempt <= r.maxRetries] fails; the trace [tr] records the
    invocations of [fn] and the sleeps.  The classifier the loop
    consults is the argument [retryable]: [Do] passes the package's
    [isRetryableError], and the loop can be studied under another
    classifier as well. *)
Fixpoint Do_loop (retryable : error -> bool)
    (r : RetryLogic) (fn : W -> option error * W)
    (n : nat) (attempt : Z) (lastErr : option error)
    (w : W) (tr : list event) : option error * W * list event :=
  match n with
  | O =>
      (Some (Errorf_w
               ("request failed after " +:+ FormatInt (maxRetries r + 1)
                  +:+ " attempts: ") lastErr),
       w, tr)
  | S n' =>
      match ctx_Err w with
      | Some e => (Some e, w, tr)
      | None =>
          let '(err, w1) := fn w in
          let tr1 := tr ++ [Invoke] in
          match err with
          | None => (None, w1, tr1)
          | Some e =>
              if negb (retryable e) then (Some e, w1, tr1)
              else if attempt <? maxRetries r then
                let delay := calculateDelay r attempt in
                let tr2 := tr1 ++ [Sleep delay] in
                match select_After_Done delay w1 with
                | (TimerFired, w2) =>
                    Do_loop retryable r fn n' (attempt + 1) (Some e) w2 tr2
                | (CtxDone, w2) => (ctx_Err w2, w2, tr2)
                end
              else Do_loop retryable r fn n' (attempt + 1) (Some e) w1 tr1
          end
      end
  end.

(** [func (r *RetryLogic) Do(ctx context.Context, fn func() error) error]:
    the error returned, the world afterwards and the trace.  The loop
    [for attempt := 0; attempt <= r.maxRetries; attempt++] has
    [maxRetries + 1] iterations, none when that is not positive. *)
Definition Do (r : RetryLogic) (fn : W -> option error * W) (w : W)
  : option error * W * list event :=
  Do_loop isRetryableError r fn (Z.to_nat (maxRetries r + 1)) 0 None w [].

End Retry.

(** ** utils.go: the query encoder *)

(** [url.Values], a [map[string][]string]. *)
Abbreviation Values := (gmap string (list string)).

(** [func (v Values) Add(key, value string)]: appends to the values of
    the key. *)
Definition Add (v : Values) (key value : string) : Values :=
  <[key := default [] (v !! key) ++ [value]]> v.


Inductive int_kind := KInt | KInt8 | KInt16 | KInt32 | KInt64.

(** A Go value as package [reflect] shows it, by [Kind].
    - [VInt], [VUint], [VFloat] cover the sized kinds; [v.Int()],
      [v.Uint()] and [v.Float()] widen them to 64 bits.
    - [VPtr None], [VSlice None], [VMap None], [VInterface None] are the
      nil pointer, slice, map and interface.
    - A map lists its entries in the order the iteration meets them, each
      key as [fmt.Sprintf("%v", key)] prints it (the only use the encoder
      makes of a key).  The entries of a [map[K]interface{}] and the
      elements of a [[]interface{}] have Kind Interface: they are
      [VInterface] values around the dynamic value.
    - A struct lists its fields in declaration order: whether the field
      is exported ([CanInterface]), its [json] tag, its value.
    - [VOther] stands for the remaining kinds (Invalid, Array, Chan,
      Func, Complex, Uintptr, UnsafePointer). *)
Inductive value : Type :=
| VString (s : string)
| VInt (k : int_kind) (i : Z)
| VUint (n : Z)
| VFloat (f : spec_float)
| VBool (b : bool)
| VPtr (p : option value)
| VSlice (l : option (list value))
| VMap (m : option (list (string * value)))
| VInterface (e : option value)
| VStruct (fields : list (bool * string * value))
| VOther.

(** [value.IsNil()] behind the test for Kind Ptr, Map, Slice or
    Interface. *)
Definition nilable_IsNil (v : value) : bool :=
  match v with
  | VPtr None | VSlice None | VMap None | VInterface None => true
  | _ => false
  end.

(** [v.Interface()]: the dynamic value; for a value of Kind Interface,
    the value inside. *)
Definition Interface (v : value) : option value :=
  match v with
  | VInterface e => e
  | _ => Some v
  end.

(** The name part of a [json] tag: the tag up to its first comma. *)
Fixpoint tag_name (tag : string) : string :=
  match tag with
  | EmptyString => EmptyString
  | String c rest => if Ascii.eqb c "," then EmptyString else String c (tag_name rest)
  end.

Definition nonempty (s : string) : bool := negb (String.eqb s "").

Section QueryEncoder.

(** [strconv.FormatFloat(f, 'f', -1, 64)], the standard library's
    shortest decimal rendering. *)
Variable FormatFloat : spec_float -> string.

(** The type assertion [x.(interface{ String() string })] on a dynamic
    value followed by the call of [String()]: [None] when the dynamic
    type has no such method. *)
Variable as_Stringer : value -> option string.

(** The type assertion [x.(time.Time)] followed by
    [t.Format(time.RFC3339)]. *)
Variable as_Time : value -> option string.

(** The [switch v.Kind()] of [fieldValueToString], with the recursive
    call for the elements of a slice passed in.  Every value the
    encoder reaches comes from an exported field or from the argument,
    so [v.CanInterface()] holds in the default case. *)
Definition kind_switch (rec : value -> string) (v : value) : string :=
  match v with
  | VString s => s
  | VInt _ i => FormatInt i
  | VUint n => FormatInt n
  | VFloat f => FormatFloat f
  | VBool b => FormatBool b
  | VSlice None => ""
  | VSlice (Some l) => String.concat "," (map rec l)
  | _ =>
      match Interface v with
      | None => ""
      | Some x =>
          match as_Stringer x with
          | Some s => s
          | None => default "" (as_Time x)
          end
      end
  end.

(** [func fieldValueToString(v reflect.Value) string]. *)
Fixpoint fieldValueToString (v : value) : string :=
  match v with
  | VPtr None => ""
  | VPtr (Some e) => kind_switch fieldValueToString e
  | _ => kind_switch fieldValueToString v
  end.

(** One iteration of the loop over the keys of a map argument. *)
Definition add_map_entry (params : Values) (entry : string * value) : Values :=
  let '(keyStr, value) := entry in
  if nilable_IsNil value then params
  else
    let valueStr := fieldValueToString value in
    if nonempty valueStr then Add params keyStr valueStr else params.

(** One iteration of the loop over the entries of a map-valued field. *)
Definition add_sub_entry (name : string) (params : Values)
    (entry : string * value) : Values :=
  let '(subKey, subValue) := entry in
  if nilable_IsNil subValue then params
  else
    let subValueStr := fieldValueToString subValue in
    if nonempty subValueStr then Add params (name +:+ "." +:+ subKey) subValueStr
    else params.

(** One iteration of the loop over the fields of a struct argument. *)
Definition add_field (params : Values) (f : bool * string * value) : Values :=
  let '(exported, tag, field) := f in
  if negb exported then params
  else if String.eqb tag "" || String.eqb tag "-" then params
  else
    let name := tag_name tag in
    match field with
    | VPtr None => params
    | _ =>
        let fieldValue :=
          match field with VPtr (Some e) => e | _ => field end in
        match fieldValue with
        | VSlice l =>
            let values :=
              List.filter nonempty (map fieldValueToString (default [] l)) in
            match values with
            | [] => params
            | _ => Add params name (String.concat "," values)
            end
        | VMap m => fold_left (add_sub_entry name) (default [] m) params
        | _ =>
            let value := fieldValueToString field in
            if nonempty value then Add params name value else params
        end
    end.

(** [func StructToQueryParams(v interface{}) url.Values]; the argument
    is [reflect.ValueOf(v)]. *)
Definition StructToQueryParams (v : value) : Values :=
  match v with
  | VPtr None => ∅
  | _ =>
      let val := match v with VPtr (Some e) => e | _ => v end in
      match val with
      | VMap m => fold_left add_map_entry (default [] m) ∅
      | VStruct fields => fold_left add_field fields ∅
      | _ => ∅
      end
  end.

End QueryEncoder.

(** ** pagination.go *)

(** A [map[string]interface{}]: each key holds the dynamic value of the
    interface, [None] for the nil interface. *)
Abbreviation Params := (gmap string (option value)).

(** [type PaginationInfo struct]; the pointer fields are options. *)
Record PaginationInfo := mkPaginationInfo
  { info_Cursor : option string;
    info_Limit : option Z;
    info_Direction : option string;
    HasMore : bool }.

(** [type Cursor[T any] struct]: one decoded page.  A nil [Items] slice
    reads as the empty list; a nil [Pagination] is [None]. *)
Record Cursor (T : Type) := mkCursor
  { Items : list T;
    Pagination : option PaginationInfo }.
Arguments mkCursor {T} _ _.
Arguments Items {T} _.
Arguments Pagination {T} _.

(** One call of [DoRequestWithQuery]: method, path, query. *)
Definition request : Type := string * string * Params.

(** [type RequestClient interface]: [DoRequestWithQuery] either fails
    or decodes a page into [result], and changes the world (the network,
    the server) on the way. *)
Class RequestClient (W T : Type) :=
  DoRequestWithQuery : W -> string -> string -> Params -> (error + Cursor T) * W.

(** [type Iterator[T any] struct], without the [client] field: the client
    is the [RequestClient] instance in scope. *)
Record Iterator (T : Type) := mkIterator
  { path : string;
    params : Params;
    cursor : option string;
    limit : option Z;
    direction : option string;
    hasMore : bool;
    currentIdx : nat;
    currentPage : list T }.
Arguments mkIterator {T} _ _ _ _ _ _ _ _.
Arguments path {T} _.
Arguments params {T} _.
Arguments cursor {T} _.
Arguments limit {T} _.
Arguments direction {T} _.
Arguments hasMore {T} _.
Arguments currentIdx {T} _.
Arguments currentPage {T} _.

Section Pagination.

Context {W T : Type} `{client : RequestClient W T}.

(** [func NewIterator[T any](client, path, params) *Iterator[T]].  The
    three type assertions yield the zero value when the key is absent
    or holds another dynamic type (a [*int], say). *)
Definition NewIterator (path : string) (params : Params) : Iterator T :=
  let limit :=
    match params !! "limit" with Some (Some (VInt KInt i)) => i | _ => 0 end in
  let direction :=
    match params !! "direction" with Some (Some (VString s)) => s | _ => "" end in
  let cursor :=
    match params !! "cursor" with Some (Some (VString s)) => s | _ => "" end in
  {| path := path; params := params;
     cursor := Some cursor; limit := Some limit; direction := Some direction;
     hasMore := true; currentIdx := 0%nat; currentPage := [] |}.

(** The query of the next fetch: a copy of the bound parameters with
    the cursor, limit and direction that are set written over it. *)
Definition fetch_params (it : Iterator T) : Params :=
  let params := params it in
  let params :=
    match cursor it with
    | Some c => if nonempty c then <["cursor" := Some (VString c)]> params
                else params
    | None => params
    end in
  let params :=
    match limit it with
    | Some l => if 0 <? l then <["limit" := Some (VInt KInt l)]> params
                else params
    | None => params
    end in
  match direction it with
  | Some d => if nonempty d then <["direction" := Some (VString d)]> params
              else params
  | None => params
  end.

(** [func (it *Iterator[T]) fetchNextPage(ctx) error]. *)
Definition fetchNextPage (it : Iterator T) (w : W)
  : option error * Iterator T * W :=
  match DoRequestWithQuery w "GET" (path it) (fetch_params it) with
  | (inl err, w') => (Some (Errorf_w "failed to fetch page: " (Some err)), it, w')
  | (inr response, w') =>
      let '(cursor', hasMore') :=
        match Pagination response with
        | Some p => (info_Cursor p, HasMore p)
        | None => (cursor it, false)
        end in
      (None,
       {| path := path it; params := params it;
          cursor := cursor'; limit := limit it; direction := direction it;
          hasMore := hasMore'; currentIdx := 0%nat;
          currentPage := Items response |},
       w')
  end.

(** [it.currentIdx = idx]. *)
Definition set_currentIdx (it : Iterator T) (idx : nat) : Iterator T :=
  {| path := path it; params := params it;
     cursor := cursor it; limit := limit it; direction := direction it;
     hasMore := hasMore it; currentIdx := idx;
     currentPage := currentPage it |}.

(** [func (it *Iterator[T]) Next(ctx)]: the pair returned (a pointer
    to the item or nil, an error or nil).  The index only counts up from zero,
    so it is a [nat]; the lookup succeeds exactly when
    [it.currentIdx < len(it.currentPage)]. *)
Definition Next (it : Iterator T) (w : W)
  : (option T * option error) * Iterator T * W :=
  match currentPage it !! currentIdx it with
  | Some item => ((Some item, None), set_currentIdx it (S (currentIdx it)), w)
  | None =>
      if negb (hasMore it) then ((None, None), it, w)
      else
        match fetchNextPage it w with
        | (Some err, it', w') => ((None, Some err), it', w')
        | (None, it', w') =>
            match currentPage it' with
            | item :: _ => ((Some item, None), set_currentIdx it' 1%nat, w')
            | [] => ((None, None), it', w')
            end
        end
  end.

(** [func (it *Iterator[T]) HasNext() bool]. *)
Definition HasNext (it : Iterator T) : bool :=
  (currentIdx it <? length (currentPage it))%nat || hasMore it.

(** The loop of [ToSlice].  The source loop has no bound of its own (a
    server that always answers "has more" keeps it running), so the
    model counts iterations down from [fuel] and returns [None] when
    the fuel runs out before the loop ends. *)
Fixpoint ToSlice_loop (fuel : nat) (it : Iterator T) (w : W) (items : list T)
  : option ((option (list T) * option error) * Iterator T * W) :=
  match fuel with
  | O => None
  | S fuel' =>
      if HasNext it then
        match Next it w with
        | ((_, Some err), it', w') => Some ((None, Some err), it', w')
        | ((None, None), it', w') => Some ((Some items, None), it', w')
        | ((Some item, None), it', w') =>
            ToSlice_loop fuel' it' w' (items ++ [item])
        end
      else Some ((Some items, None), it, w)
  end.

(** [func (it *Iterator[T]) ToSlice(ctx) ([]T, error)]. *)
Definition ToSlice (fuel : nat) (it : Iterator T) (w : W) :=
  ToSlice_loop fuel it w [].

(** [n] calls of [Next] in a row: what each returned, and the state
    after the last. *)
Fixpoint NextN (n : nat) (it : Iterator T) (w : W)
  : list (option T * option error) * Iterator T * W :=
  match n with
  | O => ([], it, w)
  | S n' =>
      let '(r, it', w') := Next it w in
      let '(rs, it'', w'') := NextN n' it' w' in
      (r :: rs, it'', w'')
  end.

End Pagination.

(** A server as the client sees it: its answer to a request, given the
    requests it has answered before. *)
Definition server (T : Type) : Type := list request -> request -> error + Cursor T.

(** The client of a server: the world is the list of requests made so
    far, one per network call. *)
#[export] Instance server_client {T : Type} (srv : server T)
  : RequestClient (list request) T :=
  fun history method path query =>
    (srv history (method, path, query), history ++ [(method, path, query)]).

(** A server that answers the [i]-th call with the [i]-th page of a
    script, whatever the request, and fails when the script is over. *)
Definition scripted {T : Type} (pages : list (Cursor T)) : server T :=
  fun history _ =>
    match pages !! length history with
    | Some page => inr page
    | None => inl (errorString "no scripted response left")
    end.


(** A struct field whose value, behind a pointer or not, has Kind Map:
    the encoder flattens it instead of rendering it. *)
Definition map_valued (field : value) : bool :=
  match field with
  | VMap _ | VPtr (Some (VMap _)) => true
  | _ => false
  end.

(** Every value stored under every key is a non-empty string (and no key
    has an empty list of values). *)
Definition values_nonempty (params : Values) : Prop :=
  map_Forall (fun _ vals => vals <> [] /\ Forall (fun s => s <> "") vals) params.








End internal.


(** * Package resources: messages.go *)

Module resources.

Import internal.

Section Messages.

(** [time.Time] and [t.Format(time.RFC3339Nano)], from the standard
    library. *)
Variable Time : Type.
Variable Format_RFC3339Nano : Time -> string.






End Messages.

End resources.

(** * Package beeperdesktop: options.go and client.go *)

(** [*http.Client], of which the SDK sets the [Timeout] only. *)
Record http_Client := mk_http_Client { client_Timeout : Z }.

(** [type ClientConfig struct]; a nil [HTTPClient] is [None]. *)
Record ClientConfig := mkClientConfig
  { AccessToken : string;
    BaseURL : string;
    Timeout : Z;
    MaxRetries : Z;
    UserAgent : string;
    HTTPClient : option http_Client }.

(** [type ClientOption], a function on a pointer to a [ClientConfig]: an
    option updates the configuration it is handed. *)
Definition ClientOption : Type := ClientConfig -> ClientConfig.

Definition WithAccessToken (token : string) : ClientOption :=
  fun c => mkClientConfig token (BaseURL c) (Timeout c) (MaxRetries c)
             (UserAgent c) (HTTPClient c).

Definition WithBaseURL (baseURL : string) : ClientOption :=
  fun c => mkClientConfig (AccessToken c) baseURL (Timeout c) (MaxRetries c)
             (UserAgent c) (HTTPClient c).

Definition WithTimeout (timeout : Z) : ClientOption :=
  fun c => mkClientConfig (AccessToken c) (BaseURL c) timeout (MaxRetries c)
             (UserAgent c) (HTTPClient c).

Definition WithMaxRetries (maxRetries : Z) : ClientOption :=
  fun c => mkClientConfig (AccessToken c) (BaseURL c) (Timeout c) maxRetries
             (UserAgent c) (HTTPClient c).

Definition WithUserAgent (userAgent : string) : ClientOption :=
  fun c => mkClientConfig (AccessToken c) (BaseURL c) (Timeout c) (MaxRetries c)
             userAgent (HTTPClient c).

Definition WithHTTPClient (httpClient : option http_Client) : ClientOption :=
  fun c => mkClientConfig (AccessToken c) (BaseURL c) (Timeout c) (MaxRetries c)
             (UserAgent c) httpClient.

(** [type BeeperDesktop struct].  The six resource handles hold nothing
    but a reference back to the client; the model records that they were
    made, in the construction trace of [New]. *)
Record BeeperDesktop := mkBeeperDesktop
  { accessToken : string;
    baseURL : string;
    timeout : Z;
    maxRetries : Z;
    userAgent : string;
    httpClient : http_Client;
    retryLogic : internal.RetryLogic }.

(** What [New] constructs, in order. *)
Inductive construction :=
| NewTransport (c : http_Client)
| NewRetryEngine (r : internal.RetryLogic)
| NewResource (name : string).

(** [strings.HasSuffix]. *)
Definition HasSuffix (s suffix : string) : bool :=
  (String.length suffix <=? String.length s)%nat &&
  String.eqb
    (substring (String.length s - String.length suffix) (String.length suffix) s)
    suffix.

Section Construction.

(** [os.Getenv]: the environment of the process. *)
Variable Getenv : string -> string.

(** The package constant [Version] (the SDK's version string), a
    parameter of the model. *)
Variable Version : string.

(** [func getEnvWithDefault(key, defaultValue string) string]. *)
Definition getEnvWithDefault (key defaultValue : string) : string :=
  let value := Getenv key in
  if String.eqb value "" then defaultValue else value.

(** The configuration [New] validates: the defaults, then the options
    in call order. *)
Definition resolved_config (opts : list ClientOption) : ClientConfig :=
  let config :=
    {| AccessToken := Getenv "BEEPER_ACCESS_TOKEN";
       BaseURL := getEnvWithDefault "BEEPER_DESKTOP_BASE_URL"
                    "http://localhost:23373";
       Timeout := 30 * internal.Second;
       MaxRetries := 2;
       UserAgent := "beeper-desktop-api-go/" +:+ Version;
       HTTPClient := None |} in
  fold_left (fun config opt => opt config) opts config.

(** [func New(opts ...ClientOption)]: the pair returned (a client or
    nil, an error or nil) and what was constructed on the way. *)
Definition New (opts : list ClientOption)
  : (option BeeperDesktop * option error) * list construction :=
  let config := resolved_config opts in
  if String.eqb (AccessToken config) "" then
    ((None,
      Some (AuthenticationError
              {| Status := 401; Message := "access token is required";
                 Code := ""; Details := ∅ |})),
     [])
  else
    let baseURL :=
      if negb (HasSuffix (BaseURL config) "/") then BaseURL config +:+ "/"
      else BaseURL config in
    let '(httpClient, made) :=
      match HTTPClient config with
      | Some c => (c, [])
      | None =>
          let c := {| client_Timeout := Timeout config |} in
          (c, [NewTransport c])
      end in
    let retry := internal.NewRetryLogic (MaxRetries config) in
    let client :=
      {| accessToken := AccessToken config;
         baseURL := baseURL;
         timeout := Timeout config;
         maxRetries := MaxRetries config;
         userAgent := UserAgent config;
         httpClient := httpClient;
         retryLogic := retry |} in
    ((Some client, None),
     made ++ [NewRetryEngine retry; NewResource "Accounts"; NewResource "App";
              NewResource "Chats"; NewResource "Contacts";
              NewResource "Messages"; NewResource "Token"]).

End Construction.

(** * Example data and test doubles *)

Definition not_found_404 : error :=
  NotFoundError (mkAPIError 404 "not found" "NOT_FOUND" ∅).

Definition conflict_409 : error :=
  ConflictError (mkAPIError 409 "conflict" "" ∅).

(** An operation that fails with a 404 on every call; the world counts
    the calls. *)
Definition always_not_found (calls : nat) : option error * nat :=
  (Some not_found_404, S calls).

(** An operation that fails with a 409 on every call. *)
Definition always_conflict (calls : nat) : option error * nat :=
  (Some conflict_409, S calls).

(** A context that is never done, one that is done from the start, and
    a wait that always lasts until the timer fires. *)
Definition never_cancelled (w : nat) : option error := None.
Definition already_cancelled (w : nat) : option error := Some Canceled.
Definition timer_fires (delay : Z) (w : nat) : internal.wake * nat :=
  (internal.TimerFired, w).

(** A process environment in which no variable is set. *)
Definition empty_environment (key : string) : string := "".

(** Parameters of the encoder for bags without floats, [Stringer]s or
    times. *)
Definition no_float (f : spec_float) : string := "".
Definition no_method (v : internal.value) : option string := None.

(** Pagination metadata of a page with more behind it, and of a last
    page. *)
Definition more_after (c : string) : internal.PaginationInfo :=
  internal.mkPaginationInfo (Some c) None None true.
Definition no_more : internal.PaginationInfo :=
  internal.mkPaginationInfo None None None false.

(** Two scripts of three pages. *)
Definition three_pages : list (internal.Cursor Z) :=
  [internal.mkCursor [1; 2] (Some (more_after "c1"));
   internal.mkCursor [3] (Some (more_after "c2"));
   internal.mkCursor [4; 5] (Some no_more)].

Definition empty_first_page : list (internal.Cursor Z) :=
  [internal.mkCursor [] (Some (more_after "c1"));
   internal.mkCursor [7] (Some (more_after "c2"));
   internal.mkCursor [8] (Some no_more)].

(** A script of one page without pagination metadata. *)
Definition one_page : list (internal.Cursor Z) :=
  [internal.mkCursor [10; 20] None].


(** * Further definitions for the query encoder *)

(** A struct field the encoder does not skip: exported, with a [json]
    tag other than "-", and not a nil pointer. *)
Definition encodable (f : bool * string * internal.value) : bool :=
  let '(exported, tag, field) := f in
  exported && negb (String.eqb tag "" || String.eqb tag "-") &&
  match field with internal.VPtr None => false | _ => true end.



(** The entries of a map that reach the output, each with the rendering
    of its value: those that are not nil and do not render empty. *)
Definition rendered_entries (FormatFloat : spec_float -> string)
    (as_Stringer as_Time : internal.value -> option string)
    (entries : list (string * internal.value)) : list (string * string) :=
  omap (fun entry : string * internal.value =>
          if internal.nilable_IsNil entry.2 then None
          else
            let s := internal.fieldValueToString FormatFloat as_Stringer
                       as_Time entry.2 in
            if internal.nonempty s then Some (entry.1, s) else None)
       entries.

(** A [map[string]interface{}] as [reflect.ValueOf] shows it: every
    entry has Kind Interface. *)
Definition Params_value (query : internal.Params) : internal.value :=
  internal.VMap
    (Some (map (fun entry : string * option internal.value =>
                  (entry.1, internal.VInterface entry.2))
               (map_to_list query))).

(** * Package beeperdesktop: client.go, the request executor *)

(** [*http.Request] as far as the SDK fills it. *)
Record Request := mkRequest
  { req_Method : string;
    req_URL : string;
    req_Header : gmap string string;
    req_Body : option string }.

(** [*http.Response] as far as the SDK reads it: the status code and
    what [io.ReadAll(resp.Body)] returns. *)
Record Response := mkResponse
  { StatusCode : Z;
    resp_Body : error + string }.

(** [strings.TrimPrefix]. *)
Definition TrimPrefix (s prefix : string) : string :=
  if String.prefix prefix s
  then substring (String.length prefix)
         (String.length s - String.length prefix) s
  else s.

Module beeperdesktop.

Section Executor.

(** The world (network, server, context, clock), the type of request
    bodies and the type a response is decoded into. *)
Context {W B R : Type}.

(** [json.Marshal(body)]. *)
Variable json_Marshal : B -> error + string.

(** The error of [http.NewRequestWithContext(ctx, method, url, body)],
    which validates the method and parses the URL. *)
Variable NewRequest_error : string -> string -> option error.

(** [c.httpClient.Do(req)]: a transport error or a response, and the
    world afterwards. *)
Variable httpClient_Do : http_Client -> W -> Request -> (error + Response) * W.

(** [json.Unmarshal(body, &errorResp)] of [handleErrorResponse]. *)
Variable json_Unmarshal_error : string -> errorResp.

(** [json.Unmarshal(respBody, result)]: an error, or the value left in
    [result]. *)
Variable json_Unmarshal_result : string -> error + R.

(** The parameters of the query encoder and [queryValues.Encode()]. *)
Variable FormatFloat : spec_float -> string.
Variable as_Stringer : internal.value -> option string.
Variable as_Time : internal.value -> option string.
Variable Encode : internal.Values -> string.

(** The context and the wait between attempts, as for [internal.Do]. *)
Variable ctx_Err : W -> option error.
Variable select_After_Done : Z -> W -> internal.wake * W.
Variable overflow : Z.

(** The request [doRequestOnce] builds: the URL is the base URL followed
    by the path without one leading slash; the headers are set in the
    order Authorization, User-Agent, Content-Type (with a body only),
    Accept. *)
Definition build_request (c : BeeperDesktop) (method path : string)
    (reqBody : option string) : Request :=
  let url := baseURL c +:+ TrimPrefix path "/" in
  let header : gmap string string := ∅ in
  let header := <["Authorization" := "Bearer " +:+ accessToken c]> header in
  let header := <["User-Agent" := userAgent c]> header in
  let header :=
    match reqBody with
    | Some _ => <["Content-Type" := "application/json"]> header
    | None => header
    end in
  let header := <["Accept" := "application/json"]> header in
  {| req_Method := method; req_URL := url; req_Header := header;
     req_Body := reqBody |}.

(** [func (c *BeeperDesktop) doRequestOnce(ctx, method, path, body,
    result) error]: the error returned, the value decoded into [result]
    when there is one, and the world afterwards.  [body] is [None] for a
    nil body; [result] tells whether the result pointer is non-nil. *)
Definition doRequestOnce (c : BeeperDesktop) (method path : string)
    (body : option B) (result : bool) (w : W)
  : (option error * option R) * W :=
  let marshalled : error + option string :=
    match body with
    | None => inr None
    | Some b =>
        match json_Marshal b with
        | inl err => inl err
        | inr bodyBytes => inr (Some bodyBytes)
        end
    end in
  match marshalled with
  | inl err =>
      ((Some (Errorf_w "failed to marshal request body: " (Some err)), None), w)
  | inr reqBody =>
      let req := build_request c method path reqBody in
      match NewRequest_error method (req_URL req) with
      | Some err =>
          ((Some (Errorf_w "failed to create request: " (Some err)), None), w)
      | None =>
          match httpClient_Do (httpClient c) w req with
          | (inl err, w') =>
              ((Some (APIConnectionError ("request failed: " +:+ Error err)
                        (Some err)), None), w')
          | (inr resp, w') =>
              match resp_Body resp with
              | inl err =>
                  ((Some (Errorf_w "failed to read response body: " (Some err)),
                    None), w')
              | inr respBody =>
                  if 400 <=? StatusCode resp then
                    ((Some (handleErrorResponse json_Unmarshal_error
                              (StatusCode resp) respBody), None), w')
                  else if result then
                    match json_Unmarshal_result respBody with
                    | inl err =>
                        ((Some (Errorf_w "failed to unmarshal response: "
                                  (Some err)), None), w')
                    | inr r => ((None, Some r), w')
                    end
                  else ((None, None), w')
              end
          end
      end
  end.

(** [func (c *BeeperDesktop) DoRequest(ctx, method, path, body, result)
    error]: the retry engine around the closure that calls
    [doRequestOnce].  The world of the engine is the world together with
    the content of [result] ([None] while nothing was decoded into it;
    what a failed decode leaves there is not modelled). *)
Definition DoRequest (c : BeeperDesktop) (method path : string)
    (body : option B) (result : bool) (w : W)
  : option error * (W * option R) * list internal.event :=
  internal.Do
    (fun s : W * option R => ctx_Err s.1)
    (fun delay (s : W * option R) =>
       let '(wk, w') := select_After_Done delay s.1 in (wk, (w', s.2)))
    overflow
    (retryLogic c)
    (fun s : W * option R =>
       let '((err, decoded), w') := doRequestOnce c method path body result s.1 in
       (err, (w', match decoded with Some r => Some r | None => s.2 end)))
    (w, None).

(** [func (c *BeeperDesktop) DoRequestWithQuery(ctx, method, path, query,
    result) error]. *)
Definition DoRequestWithQuery (c : BeeperDesktop) (method path : string)
    (query : internal.Params) (result : bool) (w : W)
  : option error * (W * option R) * list internal.event :=
  let queryValues :=
    internal.StructToQueryParams FormatFloat as_Stringer as_Time
      (Params_value query) in
  let path :=
    if bool_decide (queryValues = ∅) then path
    else path +:+ "?" +:+ Encode queryValues in
  DoRequest c method path None result w.

End Executor.


End beeperdesktop.

(** * Further example data *)

(** The field [maxRetries] of [BeeperDesktop], under a name of its own
    beside the field of [RetryLogic]. *)
Definition client_maxRetries (c : BeeperDesktop) : Z := maxRetries c.

(** A process environment that holds an access token and nothing else. *)
Definition token_in_environment (key : string) : string :=
  if String.eqb key "BEEPER_ACCESS_TOKEN" then "secret" else "".

(** A client as [New] makes it from the defaults and a token. *)
Definition example_client : BeeperDesktop :=
  mkBeeperDesktop "secret" "http://localhost:23373/" (30 * internal.Second) 2
    "beeper-desktop-api-go/0.1.0"
    {| client_Timeout := 30 * internal.Second |} (internal.NewRetryLogic 2).

(** The client [New] makes for a token and the base URL
    [https://api.example.com], and what [New] constructs for it. *)
Definition example_com_client : BeeperDesktop :=
  mkBeeperDesktop "token" "https://api.example.com/" (30 * internal.Second) 2
    "beeper-desktop-api-go/0.1.0"
    {| client_Timeout := 30 * internal.Second |} (internal.NewRetryLogic 2).

Definition example_com_made : list construction :=
  [NewTransport {| client_Timeout := 30 * internal.Second |};
   NewRetryEngine (internal.NewRetryLogic 2);
   NewResource "Accounts"; NewResource "App"; NewResource "Chats";
   NewResource "Contacts"; NewResource "Messages"; NewResource "Token"].

(** A transport that answers every request with status 503 and counts
    the requests in the world. *)
Definition always_503 (h : http_Client) (sent : nat) (req : Request)
  : (error + Response) * nat :=
  (inr (mkResponse 503 (inr "unavailable")), S sent).

(** A decoder of error bodies that finds no JSON object, and a decoder
    of results that returns the body as it is. *)
Definition no_json (body : string) : errorResp := mkErrorResp "" "" ∅.
Definition raw_result (body : string) : error + string := inr body.

(** A server that answers every request with one item and announces
    more. *)
Definition endless : internal.server Z :=
  fun _ _ => inr (internal.mkCursor [7] (Some (more_after "next"))).

(** An iterator that has handed out both items of its last page. *)
Definition exhausted_iterator : internal.Iterator Z :=
  internal.mkIterator "/v0/search-chats" ∅ None (Some 0) (Some "") false
    2%nat [10; 20].

(** An iterator with one item of its last page handed out and two left
    in the buffer. *)
Definition last_page_iterator : internal.Iterator Z :=
  internal.mkIterator "/v0/search-chats" ∅ None (Some 0) (Some "") false
    1%nat [10; 20; 30].

(** An iterator with one item of its page handed out and more pages
    announced, at cursor "c1". *)
Definition midway_iterator : internal.Iterator Z :=
  internal.mkIterator "/v0/search-chats"
    {[ "cursor" := Some (internal.VString "c0");
       "query" := Some (internal.VString "cats") ]}
    (Some "c1") (Some 0) (Some "") true 1%nat [10; 20].

(** A server that is down. *)
Definition unreachable : internal.server Z :=
  fun _ _ => inl (APIConnectionError "request failed: connection refused" None).

(** * Part II: properties *)

Import internal.

(** ** Error classifier *)

(** C3. For every status among 400, 401, 403, 404, 409, 422, 429, 500,
    502, 503 and whatever the body decodes to, [handleErrorResponse]
    produces the kind the taxonomy table gives for that status,
    [IsRetryableError] of the produced error is the table's Retryable
    column, and the error carries the status and the decoded code and
    details (and the decoded message, or the raw body when that is
    empty). *)
Theorem handleErrorResponse_taxonomy :
  forall (json_Unmarshal : string -> errorResp) (status : Z) (body : string),
    In status listed_statuses ->
    let err := handleErrorResponse json_Unmarshal status body in
    taxonomy status = Some (kind_of err, IsRetryableError err) /\
    api_fields err =
      Some {| Status := status;
              Message := if String.eqb (resp_Error (json_Unmarshal body)) ""
                         then body else resp_Error (json_Unmarshal body);
              Code := resp_Code (json_Unmarshal body);
              Details := resp_Details (json_Unmarshal body) |}.
Proof.
  intros json status body Hin.
  unfold listed_statuses in Hin; simpl in Hin.
  repeat (destruct Hin as [<- | Hin]; [split; reflexivity|]).
  contradiction.
Qed.

Lemma handleErrorResponse_taxonomy_witness :
  In 409 listed_statuses /\
  let err := handleErrorResponse
               (fun _ => mkErrorResp "conflict" "CONFLICT" ∅) 409 "{}" in
  taxonomy 409 = Some (kind_of err, IsRetryableError err) /\
  api_fields err =
    Some {| Status := 409; Message := "conflict"; Code := "CONFLICT";
            Details := ∅ |}.
Proof.
  split.
  - simpl; tauto.
  - apply (handleErrorResponse_taxonomy
             (fun _ => mkErrorResp "conflict" "CONFLICT" ∅) 409 "{}").
    simpl; tauto.
Defined.

(** ** Retry engine *)

(** Case analysis on every integer comparison in the goal. *)
Ltac case_bool_Z :=
  repeat match goal with
    | |- context [?a <=? ?b] => destruct (Z.leb_spec a b)
    | |- context [?a <? ?b] => destruct (Z.ltb_spec a b)
    | |- context [?a =? ?b] => destruct (Z.eqb_spec a b)
    end;
  cbn [andb orb negb] in *.

Section RetryFacts.

Context {W : Type}.
Variable ctx_Err : W -> option error.
Variable select_After_Done : Z -> W -> wake * W.
Variable overflow : Z.

(** One iteration of the loop when the operation fails: the stub
    [isRetryableError] sends every error down the "not retryable"
    return. *)
Lemma Do_loop_failure r fn n attempt lastErr w tr e w1 :
  ctx_Err w = None ->
  fn w = (Some e, w1) ->
  Do_loop ctx_Err select_After_Done overflow isRetryableError r fn (S n)
    attempt lastErr w tr
  = (Some e, w1, tr ++ [Invoke]).
Proof.
  intros Hctx Hfn. simpl. rewrite Hctx, Hfn. reflexivity.
Qed.

Lemma Do_loop_cancelled r fn n attempt lastErr w tr e :
  ctx_Err w = Some e ->
  Do_loop ctx_Err select_After_Done overflow isRetryableError r fn (S n)
    attempt lastErr w tr
  = (Some e, w, tr).
Proof.
  intros Hctx. simpl. rewrite Hctx. reflexivity.
Qed.

Lemma iterations_positive r :
  0 <= maxRetries r ->
  exists n, Z.to_nat (maxRetries r + 1) = S n.
Proof.
  intros H. exists (Z.to_nat (maxRetries r)).
  rewrite Z2Nat.inj_add by lia. simpl. lia.
Qed.

(** Whatever the operation's first error is, [Do] returns it after
    that one invocation. *)
Lemma Do_first_failure r fn w e w1 :
  0 <= maxRetries r ->
  ctx_Err w = None ->
  fn w = (Some e, w1) ->
  Do ctx_Err select_After_Done overflow r fn w = (Some e, w1, [Invoke]).
Proof.
  intros Hr Hctx Hfn. unfold Do.
  destruct (iterations_positive r Hr) as [n ->].
  now rewrite (Do_loop_failure r fn n 0 None w [] e w1).
Qed.

Lemma invocations_app tr tr' :
  invocations (tr ++ tr') = (invocations tr + invocations tr')%nat.
Proof. unfold invocations. now rewrite List.filter_app, length_app. Qed.

(** The loop itself is the one the specification describes.  Under a
    classifier that accepts the operation's errors, with a context that
    is never done, the loop runs all its iterations, invokes the
    operation in each, and ends with the wrapping error around the last
    failure. *)
Lemma Do_loop_exhausts (retryable : error -> bool) r fn :
  (forall w, ctx_Err w = None) ->
  (forall d w, fst (select_After_Done d w) = TimerFired) ->
  (forall w, exists e, fst (fn w) = Some e /\ retryable e = true) ->
  forall n attempt lastErr w tr,
  exists last w' tr',
    Do_loop ctx_Err select_After_Done overflow retryable r fn n
      attempt lastErr w tr
    = (Some (Errorf_w ("request failed after " +:+ FormatInt (maxRetries r + 1)
                         +:+ " attempts: ") last), w', tr') /\
    invocations tr' = (invocations tr + n)%nat /\
    (n = 0%nat -> last = lastErr) /\
    ((0 < n)%nat -> exists e, last = Some e /\ retryable e = true).
Proof.
  intros Hctx Hsel Hfn. induction n as [|n IH]; intros attempt lastErr w tr.
  - exists lastErr, w, tr. cbn [Do_loop].
    repeat split; [lia | lia].
  - cbn [Do_loop]. rewrite Hctx.
    destruct (Hfn w) as (e & He & Hre).
    destruct (fn w) as [err w1]. cbn [fst] in He. subst err.
    rewrite Hre. cbn [negb].
    assert (Hlast : forall last : option error,
               (n = 0%nat -> last = Some e) ->
               ((0 < n)%nat -> exists e', last = Some e' /\ retryable e' = true) ->
               exists e', last = Some e' /\ retryable e' = true).
    { intros last H0 Hpos. destruct n; [exists e; auto | apply Hpos; lia]. }
    destruct (attempt <? maxRetries r).
    + pose proof (Hsel (calculateDelay overflow r attempt) w1) as Hwake.
      destruct (select_After_Done _ w1) as [wk w2]. cbn [fst] in Hwake.
      subst wk.
      destruct (IH (attempt + 1) (Some e) w2
                  ((tr ++ [Invoke]) ++ [Sleep (calculateDelay overflow r attempt)]))
        as (last & w' & tr' & Heq & Hinv & H0 & Hpos).
      exists last, w', tr'. rewrite Heq. split; [reflexivity|].
      split; [rewrite Hinv, !invocations_app; cbn; lia|].
      split; [discriminate | intros _; now apply Hlast].
    + destruct (IH (attempt + 1) (Some e) w1 (tr ++ [Invoke]))
        as (last & w' & tr' & Heq & Hinv & H0 & Hpos).
      exists last, w', tr'. rewrite Heq. split; [reflexivity|].
      split; [rewrite Hinv, !invocations_app; cbn; lia|].
      split; [discriminate | intros _; now apply Hlast].
Qed.

(** With a negative retry count the loop body never runs. *)
Lemma Do_negative_maxRetries r fn w :
  maxRetries r < 0 ->
  Do ctx_Err select_After_Done overflow r fn w
  = (Some (Errorf_w ("request failed after " +:+ FormatInt (maxRetries r + 1)
                       +:+ " attempts: ") None), w, []).
Proof.
  intros Hr. unfold Do.
  replace (Z.to_nat (maxRetries r + 1)) with O by lia. reflexivity.
Qed.

(** The backoff delay while the product fits an int64. *)
Lemma calculateDelay_in_range (n i : Z) :
  0 <= i <= 35 ->
  calculateDelay overflow (NewRetryLogic n) i
  = Z.min (250 * Millisecond * 2 ^ i) (10000 * Millisecond).
Proof.
  intros Hi.
  assert (H0 : 2 ^ 0 <= 2 ^ i) by (apply Z.pow_le_mono_r; lia).
  assert (H35 : 2 ^ i <= 2 ^ 35) by (apply Z.pow_le_mono_r; lia).
  change (2 ^ 0) with 1 in H0. change (2 ^ 35) with 34359738368 in H35.
  unfold calculateDelay, Duration_of_float64, scaled, NewRetryLogic.
  cbn [baseDelay maxDelay].
  unfold Second, Millisecond, MinInt64, MaxInt64.
  change (2 ^ 63) with 9223372036854775808.
  generalize dependent (2 ^ i). intros p Hp1 Hp2.
  case_bool_Z; lia.
Qed.

(** Beyond that the product does not fit, and the delay is whatever the
    platform's conversion yields, capped. *)
Lemma calculateDelay_out_of_range (n i : Z) :
  36 <= i ->
  calculateDelay overflow (NewRetryLogic n) i
  = Z.min overflow (10000 * Millisecond).
Proof.
  intros Hi.
  assert (H36 : 2 ^ 36 <= 2 ^ i) by (apply Z.pow_le_mono_r; lia).
  change (2 ^ 36) with 68719476736 in H36.
  unfold calculateDelay, Duration_of_float64, scaled, NewRetryLogic.
  cbn [baseDelay maxDelay].
  unfold Second, Millisecond, MinInt64, MaxInt64.
  change (2 ^ 63) with 9223372036854775808.
  generalize dependent (2 ^ i). intros p Hp.
  case_bool_Z; lia.
Qed.


End RetryFacts.

(** C5 (as amended). For a retry count that is not negative: when the
    context is not cancelled and the invocation of the operation fails
    with a non-retryable error, [Do] returns that very error, not
    wrapped, after exactly one invocation. *)
Theorem Do_non_retryable_once :
  forall (W : Type) (ctx_Err : W -> option error)
         (select_After_Done : Z -> W -> wake * W) (overflow : Z)
         (r : RetryLogic) (fn : W -> option error * W) (w w1 : W) (e : error),
    0 <= maxRetries r ->
    ctx_Err w = None ->
    fn w = (Some e, w1) ->
    IsRetryableError e = false ->
    Do ctx_Err select_After_Done overflow r fn w = (Some e, w1, [Invoke]) /\
    invocations (snd (Do ctx_Err select_After_Done overflow r fn w)) = 1%nat.
Proof.
  intros W ctx_Err sel ov r fn w w1 e Hr Hctx Hfn _.
  rewrite (Do_first_failure ctx_Err sel ov r fn w e w1 Hr Hctx Hfn).
  split; reflexivity.
Qed.

Lemma Do_non_retryable_once_witness :
  Do never_cancelled timer_fires overflow_amd64 (NewRetryLogic 2)
     always_not_found 0%nat
  = (Some not_found_404, 1%nat, [Invoke]) /\
  invocations (snd (Do never_cancelled timer_fires overflow_amd64
                       (NewRetryLogic 2) always_not_found 0%nat)) = 1%nat.
Proof.
  apply (Do_non_retryable_once nat never_cancelled timer_fires overflow_amd64
           (NewRetryLogic 2) always_not_found 0%nat 1%nat not_found_404);
    [simpl; lia | reflexivity | reflexivity | reflexivity].
Defined.

(** C5, as stated, fails for a negative retry count, which
    [NewRetryLogic] accepts: with [maxRetries] -1, a context that is
    never cancelled and an operation that fails with a 404 (not
    retryable), the loop body never runs; the operation is invoked zero
    times, not once, and [Do] returns the "request failed after 0
    attempts" error, which wraps nothing, not the 404. *)
Lemma Do_non_retryable_negative_count :
  IsRetryableError not_found_404 = false /\
  always_not_found 0%nat = (Some not_found_404, 1%nat) /\
  never_cancelled 0%nat = None /\
  Do never_cancelled timer_fires overflow_amd64 (NewRetryLogic (-1))
     always_not_found 0%nat
  = (Some (wrapError "request failed after 0 attempts: %!w(<nil>)" None),
     0%nat, []) /\
  invocations (snd (Do never_cancelled timer_fires overflow_amd64
                       (NewRetryLogic (-1)) always_not_found 0%nat)) = 0%nat /\
  fst (fst (Do never_cancelled timer_fires overflow_amd64
              (NewRetryLogic (-1)) always_not_found 0%nat))
  <> Some not_found_404.
Proof. repeat split. discriminate. Qed.

(** C6 (as amended). For a retry count that is not negative: when the
    context is already cancelled as [Do] is called, [Do] returns the
    context's error and the operation is never invoked. *)
Theorem Do_cancelled_before :
  forall (W : Type) (ctx_Err : W -> option error)
         (select_After_Done : Z -> W -> wake * W) (overflow : Z)
         (r : RetryLogic) (fn : W -> option error * W) (w : W) (e : error),
    0 <= maxRetries r ->
    ctx_Err w = Some e ->
    Do ctx_Err select_After_Done overflow r fn w = (Some e, w, []) /\
    invocations (snd (Do ctx_Err select_After_Done overflow r fn w)) = 0%nat.
Proof.
  intros W ctx_Err sel ov r fn w e Hr Hctx.
  assert (H : Do ctx_Err sel ov r fn w = (Some e, w, [])).
  { unfold Do. destruct (iterations_positive r Hr) as [n ->].
    now apply Do_loop_cancelled. }
  rewrite H. split; reflexivity.
Qed.

Lemma Do_cancelled_before_witness :
  Do already_cancelled timer_fires overflow_amd64 (NewRetryLogic 2)
     always_not_found 0%nat
  = (Some Canceled, 0%nat, []) /\
  invocations (snd (Do already_cancelled timer_fires overflow_amd64
                       (NewRetryLogic 2) always_not_found 0%nat)) = 0%nat.
Proof.
  apply (Do_cancelled_before nat already_cancelled timer_fires overflow_amd64
           (NewRetryLogic 2) always_not_found 0%nat Canceled);
    [simpl; lia | reflexivity].
Defined.

(** C6, as stated, fails for a negative retry count: with [maxRetries]
    -1 and a context that is cancelled before the call, the loop body,
    which holds the only look at the context, never runs; [Do] returns
    the "request failed after 0 attempts" error, not the context's
    [Canceled].  The operation is not invoked. *)
Lemma Do_cancelled_negative_count :
  already_cancelled 0%nat = Some Canceled /\
  Do already_cancelled timer_fires overflow_amd64 (NewRetryLogic (-1))
     always_not_found 0%nat
  = (Some (wrapError "request failed after 0 attempts: %!w(<nil>)" None),
     0%nat, []) /\
  fst (fst (Do already_cancelled timer_fires overflow_amd64
              (NewRetryLogic (-1)) always_not_found 0%nat))
  <> Some Canceled.
Proof. repeat split. discriminate. Qed.

(** C1. The operation [always_conflict] fails on every invocation with a
    409 Conflict, which the taxonomy classes as retryable; the context
    is never cancelled and [maxRetries] is 2.  [Do] invokes the
    operation once, not three times, and returns the 409 itself, not a
    "request failed after 3 attempts" error: [isRetryableError] answers
    false for every error. *)
Theorem Do_never_retries :
  IsRetryableError conflict_409 = true /\
  isRetryableError conflict_409 = false /\
  Do never_cancelled timer_fires overflow_amd64 (NewRetryLogic 2)
     always_conflict 0%nat
  = (Some conflict_409, 1%nat, [Invoke]).
Proof. repeat split. Qed.




(** ** Query encoder *)

Lemma nonempty_true s : nonempty s = true -> s <> "".
Proof.
  unfold nonempty. destruct (String.eqb_spec s ""); [discriminate | auto].
Qed.

Lemma nonempty_false s : nonempty s = false -> s = "".
Proof.
  unfold nonempty. destruct (String.eqb_spec s ""); [auto | discriminate].
Qed.

Lemma append_nonempty (s t : string) : s <> "" -> s +:+ t <> "".
Proof. destruct s; [congruence | discriminate]. Qed.

Lemma concat_nonempty sep (x : string) xs :
  x <> "" -> String.concat sep (x :: xs) <> "".
Proof.
  intros Hx. destruct xs; simpl; [assumption | now apply append_nonempty].
Qed.

Lemma Add_values_nonempty params key value :
  values_nonempty params -> value <> "" ->
  values_nonempty (Add params key value).
Proof.
  intros Hp Hv. unfold Add. apply map_Forall_insert_2; [|exact Hp].
  split.
  - destruct (default [] (params !! key)); discriminate.
  - apply Forall_app. split; [|repeat constructor; exact Hv].
    destruct (params !! key) as [vals|] eqn:E; simpl; [|constructor].
    exact (proj2 (Hp key vals E)).
Qed.

Lemma fold_left_preserves {A B} (P : A -> Prop) (f : A -> B -> A) l :
  (forall a b, P a -> P (f a b)) -> forall a, P a -> P (fold_left f l a).
Proof.
  intros Hf. induction l as [|b l IH]; simpl; auto.
Qed.

Section EncoderFacts.

Variable FormatFloat : spec_float -> string.
Variable as_Stringer : value -> option string.
Variable as_Time : value -> option string.

Local Abbreviation fieldValueToString :=
  (fieldValueToString FormatFloat as_Stringer as_Time).
Local Abbreviation add_map_entry := (add_map_entry FormatFloat as_Stringer as_Time).
Local Abbreviation add_sub_entry := (add_sub_entry FormatFloat as_Stringer as_Time).
Local Abbreviation add_field := (add_field FormatFloat as_Stringer as_Time).
Local Abbreviation StructToQueryParams :=
  (StructToQueryParams FormatFloat as_Stringer as_Time).

Lemma add_map_entry_nonempty params entry :
  values_nonempty params -> values_nonempty (add_map_entry params entry).
Proof.
  intros Hp. destruct entry as [k v]. unfold internal.add_map_entry.
  destruct (nilable_IsNil v); [exact Hp|].
  destruct (nonempty _) eqn:E; [|exact Hp].
  apply Add_values_nonempty; [exact Hp | now apply nonempty_true].
Qed.

Lemma add_sub_entry_nonempty name params entry :
  values_nonempty params -> values_nonempty (add_sub_entry name params entry).
Proof.
  intros Hp. destruct entry as [k v]. unfold internal.add_sub_entry.
  destruct (nilable_IsNil v); [exact Hp|].
  destruct (nonempty _) eqn:E; [|exact Hp].
  apply Add_values_nonempty; [exact Hp | now apply nonempty_true].
Qed.

Lemma add_slice_nonempty params name (strs : list string) :
  values_nonempty params ->
  values_nonempty
    match List.filter nonempty strs with
    | [] => params
    | _ :: _ => Add params name (String.concat "," (List.filter nonempty strs))
    end.
Proof.
  intros Hp. destruct (List.filter nonempty strs) as [|x xs] eqn:E; [exact Hp|].
  apply Add_values_nonempty; [exact Hp|].
  apply concat_nonempty, nonempty_true.
  assert (Hin : In x (List.filter nonempty strs)) by (rewrite E; now left).
  now apply filter_In in Hin.
Qed.

Lemma add_scalar_nonempty params name v :
  values_nonempty params ->
  values_nonempty
    (if nonempty (fieldValueToString v)
     then Add params name (fieldValueToString v) else params).
Proof.
  intros Hp. destruct (nonempty _) eqn:E; [|exact Hp].
  apply Add_values_nonempty; [exact Hp | now apply nonempty_true].
Qed.

Lemma add_field_nonempty params f :
  values_nonempty params -> values_nonempty (add_field params f).
Proof.
  intros Hp. destruct f as [[exported tag] field]. unfold internal.add_field.
  destruct (negb exported); [exact Hp|].
  destruct (_ || _); [exact Hp|].
  assert (Hsub : forall m, values_nonempty
            (fold_left (add_sub_entry (tag_name tag)) m params)).
  { intros m. apply fold_left_preserves; [|exact Hp].
    intros a b. apply add_sub_entry_nonempty. }
  destruct field as [s|k i|n|fl|b|[e|]|l|m|e|fs|];
    try (apply add_scalar_nonempty; exact Hp);
    try (apply add_slice_nonempty; exact Hp);
    try (apply Hsub); try exact Hp.
  destruct e as [s|k i|n|fl|b|p|l|m|e|fs|];
    try (apply add_scalar_nonempty; exact Hp);
    try (apply add_slice_nonempty; exact Hp);
    apply Hsub.
Qed.

Lemma StructToQueryParams_nonempty v :
  values_nonempty (StructToQueryParams v).
Proof.
  assert (H0 : values_nonempty ∅) by apply map_Forall_empty.
  assert (Hm : forall m, values_nonempty (fold_left add_map_entry m ∅)).
  { intros m. apply fold_left_preserves; [|exact H0].
    intros a b. apply add_map_entry_nonempty. }
  assert (Hs : forall fs, values_nonempty (fold_left add_field fs ∅)).
  { intros fs. apply fold_left_preserves; [|exact H0].
    intros a b. apply add_field_nonempty. }
  unfold internal.StructToQueryParams.
  destruct v as [s|k i|n|fl|b|[e|]|l|m|e|fs|]; try exact H0;
    try apply Hm; try apply Hs.
  destruct e as [s|k i|n|fl|b|p|l|m|e|fs|]; try exact H0;
    try apply Hm; apply Hs.
Qed.

(** A map entry whose rendering is empty adds nothing. *)
Lemma add_map_entry_empty params key v :
  fieldValueToString v = "" -> add_map_entry params (key, v) = params.
Proof.
  intros E. unfold internal.add_map_entry.
  destruct (nilable_IsNil v); [reflexivity|]. now rewrite E.
Qed.

(** So does an entry of a map-valued field. *)
Lemma add_sub_entry_empty name params key v :
  fieldValueToString v = "" -> add_sub_entry name params (key, v) = params.
Proof.
  intros E. unfold internal.add_sub_entry.
  destruct (nilable_IsNil v); [reflexivity|]. now rewrite E.
Qed.

(** Renderings of the elements of a slice that renders empty. *)
Lemma concat_empty_filter (strs : list string) :
  String.concat "," strs = "" -> List.filter nonempty strs = [].
Proof.
  destruct strs as [|x [|y ys]]; simpl; intros E;
    [reflexivity | now rewrite E |].
  destruct x; discriminate.
Qed.

(** The entries of a [map[string]interface{}] have Kind Interface, which
    is none of the kinds the switch renders: unless its dynamic type has
    a [String] method (or is [time.Time]), such an entry adds nothing,
    empty or not. *)
Lemma add_map_entry_interface params key x :
  as_Stringer x = None -> as_Time x = None ->
  add_map_entry params (key, VInterface (Some x)) = params.
Proof.
  intros HS HT. apply add_map_entry_empty. cbn. now rewrite HS, HT.
Qed.

(** A struct field that is not map-valued and whose rendering is empty
    adds nothing. *)
Lemma add_field_empty params exported tag field :
  map_valued field = false ->
  fieldValueToString field = "" ->
  add_field params (exported, tag, field) = params.
Proof.
  intros Hm E. unfold internal.add_field.
  destruct (negb exported); [reflexivity|].
  destruct (_ || _); [reflexivity|].
  destruct field as [s|k i|n|fl|b|[e|]|[l|]|m|e|fs|];
    try discriminate Hm; try reflexivity;
    try (rewrite E; reflexivity).
  - destruct e as [s|k i|n|fl|b|p|[l|]|m|e|fs|];
      try discriminate Hm; try reflexivity;
      try (rewrite E; reflexivity).
    simpl in E |- *. now rewrite (concat_empty_filter _ E).
  - simpl in E |- *. now rewrite (concat_empty_filter _ E).
Qed.

End EncoderFacts.

(** C10. Whatever the parameter bag, map or struct, every value in the
    encoder's output is a non-empty string; a map entry whose rendering
    is empty adds no key, and neither does a struct field whose
    rendering is empty (a map-valued field is flattened, not rendered:
    each of its entries whose rendering is empty adds no key). *)
Theorem encoder_omits_empty :
  forall (FormatFloat : spec_float -> string)
         (as_Stringer as_Time : value -> option string),
    (forall v,
        values_nonempty (StructToQueryParams FormatFloat as_Stringer as_Time v)) /\
    (forall params key v,
        fieldValueToString FormatFloat as_Stringer as_Time v = "" ->
        add_map_entry FormatFloat as_Stringer as_Time params (key, v) = params) /\
    (forall params exported tag field,
        map_valued field = false ->
        fieldValueToString FormatFloat as_Stringer as_Time field = "" ->
        add_field FormatFloat as_Stringer as_Time params (exported, tag, field)
        = params) /\
    (forall name params key v,
        fieldValueToString FormatFloat as_Stringer as_Time v = "" ->
        add_sub_entry FormatFloat as_Stringer as_Time name params (key, v)
        = params).
Proof.
  intros FF aS aT. split; [|split; [|split]].
  - apply StructToQueryParams_nonempty.
  - apply add_map_entry_empty.
  - apply add_field_empty.
  - apply add_sub_entry_empty.
Qed.

(** An empty string as a map value (of a [map[string]string] and of a
    [map[string]interface{}]) and as a struct field. *)
Lemma encoder_omits_empty_witness :
  StructToQueryParams no_float no_method no_method
    (VMap (Some [("query", VString "")])) = ∅ /\
  StructToQueryParams no_float no_method no_method
    (VMap (Some [("query", VInterface (Some (VString "")))])) = ∅ /\
  StructToQueryParams no_float no_method no_method
    (VStruct [(true, "query", VString "")]) = ∅.
Proof.
  destruct (encoder_omits_empty no_float no_method no_method)
    as (_ & Hmap & Hfield & _).
  split; [|split].
  - exact (Hmap ∅ "query" (VString "") eq_refl).
  - exact (Hmap ∅ "query" (VInterface (Some (VString ""))) eq_refl).
  - exact (Hfield ∅ true "query" (VString "") eq_refl eq_refl).
Defined.






(** ** Pagination iterator *)

Section IteratorFacts.

Context {W T : Type} `{client : RequestClient W T}.

Lemma set_currentIdx_same (it : Iterator T) :
  set_currentIdx it (currentIdx it) = it.
Proof. destruct it; reflexivity. Qed.




(** [ToSlice] takes the items left in the buffer one per iteration. *)
Lemma ToSlice_loop_buffer n : forall fuel (it : Iterator T) (w : W) acc,
  (currentIdx it + n = length (currentPage it))%nat ->
  ToSlice_loop (n + fuel) it w acc
  = ToSlice_loop fuel (set_currentIdx it (length (currentPage it))) w
      (acc ++ drop (currentIdx it) (currentPage it)).
Proof.
  induction n as [|n IH]; intros fuel it w acc Hlen.
  - rewrite Nat.add_0_r in Hlen. rewrite <- Hlen, set_currentIdx_same.
    rewrite drop_ge by lia. now rewrite app_nil_r.
  - destruct (lookup_lt_is_Some_2 (currentPage it) (currentIdx it))
      as [item E]; [lia|].
    cbn [Nat.add ToSlice_loop]. unfold HasNext, Next.
    replace (currentIdx it <? length (currentPage it))%nat with true
      by (symmetry; apply Nat.ltb_lt; lia).
    cbn [orb]. rewrite E.
    rewrite (IH fuel (set_currentIdx it (S (currentIdx it))) w (acc ++ [item]))
      by (simpl; lia).
    cbn [set_currentIdx currentIdx currentPage].
    rewrite (drop_S _ _ _ E), <- app_assoc. reflexivity.
Qed.

(** The iteration of [ToSlice] that fetches a page with at least one
    item. *)
Lemma ToSlice_loop_fetch fuel (it : Iterator T) (w w' : W) acc x rest p :
  currentPage it !! currentIdx it = None ->
  hasMore it = true ->
  DoRequestWithQuery w "GET" (path it) (fetch_params it)
  = (inr (mkCursor (x :: rest) (Some p)), w') ->
  ToSlice_loop (S fuel) it w acc
  = ToSlice_loop fuel
      (mkIterator (path it) (params it) (info_Cursor p) (limit it)
         (direction it) (HasMore p) 1%nat (x :: rest))
      w' (acc ++ [x]).
Proof.
  intros Hbuf Hmore Hreq. cbn [ToSlice_loop]. unfold HasNext, Next.
  rewrite Hmore, orb_true_r, Hbuf. cbn [negb].
  unfold fetchNextPage. rewrite Hreq. reflexivity.
Qed.

(** The iteration of [ToSlice] that fetches an empty page: "no item"
    ends the loop, whether or not the page announces more. *)
Lemma ToSlice_loop_fetch_empty fuel (it : Iterator T) (w w' : W) acc p :
  currentPage it !! currentIdx it = None ->
  hasMore it = true ->
  DoRequestWithQuery w "GET" (path it) (fetch_params it)
  = (inr (mkCursor [] (Some p)), w') ->
  ToSlice_loop (S fuel) it w acc
  = Some ((Some acc, None),
          mkIterator (path it) (params it) (info_Cursor p) (limit it)
            (direction it) (HasMore p) 0%nat [],
          w').
Proof.
  intros Hbuf Hmore Hreq. cbn [ToSlice_loop]. unfold HasNext, Next.
  rewrite Hmore, orb_true_r, Hbuf. cbn [negb].
  unfold fetchNextPage. rewrite Hreq. reflexivity.
Qed.

(** The loop ends once the buffer is used up and no page is left. *)
Lemma ToSlice_loop_stop fuel (it : Iterator T) (w : W) acc :
  hasMore it = false ->
  currentIdx it = length (currentPage it) ->
  ToSlice_loop (S fuel) it w acc = Some ((Some acc, None), it, w).
Proof.
  intros Hmore Hidx. cbn [ToSlice_loop]. unfold HasNext.
  rewrite Hmore, Hidx, Nat.ltb_irrefl. reflexivity.
Qed.

End IteratorFacts.



(** C9 (as amended). A server scripted with three pages, the first two
    not empty and announcing more, the third announcing no more: a fresh
    iterator's [ToSlice], given fuel for one iteration per item and one
    more, returns the items of the three pages in order, after exactly
    three network calls; the cursors the pages carry play no part. *)
Theorem three_pages_ToSlice :
  forall (T : Type) (endpoint : string) (query : Params)
         (x1 : T) (p1 : list T) (x2 : T) (p2 p3 : list T)
         (i1 i2 i3 : PaginationInfo) (fuel : nat),
    HasMore i1 = true -> HasMore i2 = true -> HasMore i3 = false ->
    (length ((x1 :: p1) ++ (x2 :: p2) ++ p3) < fuel)%nat ->
    let pages := [mkCursor (x1 :: p1) (Some i1); mkCursor (x2 :: p2) (Some i2);
                  mkCursor p3 (Some i3)] in
    exists it' history,
      ToSlice (client := server_client (scripted pages)) fuel
        (NewIterator endpoint query) []
      = Some ((Some ((x1 :: p1) ++ (x2 :: p2) ++ p3), None), it', history) /\
      length history = 3%nat /\
      HasNext it' = false.
Proof.
  intros T endpoint query x1 p1 x2 p2 p3 i1 i2 i3 fuel H1 H2 H3 Hfuel pages.
  rewrite !length_app in Hfuel. cbn [length] in Hfuel.
  set (e := (fuel - (length p1 + length p2 + length p3 + 3))%nat).
  replace fuel with (S (length p1 + S (length p2 + S (length p3 + e))))
    by (unfold e; lia).
  unfold ToSlice.
  (* first page *)
  erewrite (ToSlice_loop_fetch (client := server_client (scripted pages)));
    [| reflexivity | reflexivity | reflexivity].
  rewrite H1.
  rewrite (ToSlice_loop_buffer (client := server_client (scripted pages)))
    by reflexivity.
  cbn [set_currentIdx currentIdx currentPage path params cursor limit
       direction hasMore app drop].
  (* second page *)
  erewrite (ToSlice_loop_fetch (client := server_client (scripted pages)));
    [| apply lookup_ge_None_2; reflexivity | reflexivity | reflexivity].
  rewrite H2.
  rewrite (ToSlice_loop_buffer (client := server_client (scripted pages)))
    by reflexivity.
  cbn [set_currentIdx currentIdx currentPage path params cursor limit
       direction hasMore app drop].
  (* third page *)
  destruct p3 as [|x3 r3].
  - erewrite (ToSlice_loop_fetch_empty (client := server_client (scripted pages)));
      [| apply lookup_ge_None_2; reflexivity | reflexivity | reflexivity].
    do 2 eexists. split; [|split].
    + rewrite app_nil_r, <- app_assoc. reflexivity.
    + reflexivity.
    + unfold HasNext. cbn. now rewrite H3.
  - erewrite (ToSlice_loop_fetch (client := server_client (scripted pages)));
      [| apply lookup_ge_None_2; reflexivity | reflexivity | reflexivity].
    rewrite H3.
    replace (length (x3 :: r3) + e)%nat with (length r3 + S e)%nat
      by (cbn [length]; lia).
    rewrite (ToSlice_loop_buffer (client := server_client (scripted pages)))
      by reflexivity.
    rewrite (ToSlice_loop_stop (client := server_client (scripted pages)))
      by reflexivity.
    do 2 eexists. split; [|split].
    + cbn [set_currentIdx currentIdx currentPage app drop].
      rewrite <- !app_assoc. reflexivity.
    + reflexivity.
    + unfold HasNext. cbn [set_currentIdx currentIdx currentPage hasMore].
      now rewrite Nat.ltb_irrefl.
Qed.

Lemma three_pages_ToSlice_witness :
  exists it' history,
    ToSlice (client := server_client (scripted three_pages)) 6
      (NewIterator "/v0/search-messages" ∅) []
    = Some ((Some [1; 2; 3; 4; 5], None), it', history) /\
    length history = 3%nat /\
    HasNext it' = false.
Proof.
  apply (three_pages_ToSlice Z "/v0/search-messages" ∅ 1 [2] 3 [] [4; 5]
           (more_after "c1") (more_after "c2") no_more 6);
    [reflexivity | reflexivity | reflexivity | simpl; lia].
Defined.

(** With an empty page that announces more, [ToSlice] ends at that page
    whatever the fuel. *)
Lemma ToSlice_empty_first_page fuel :
  ToSlice (client := server_client (scripted empty_first_page)) (S fuel)
    (NewIterator "/v0/search-messages" ∅) []
  = Some ((Some [], None),
          mkIterator "/v0/search-messages" ∅ (Some "c1") (Some 0) (Some "")
            true 0%nat [],
          [("GET", "/v0/search-messages", ∅)]).
Proof.
  unfold ToSlice.
  erewrite (ToSlice_loop_fetch_empty
              (client := server_client (scripted empty_first_page)));
    [| reflexivity | reflexivity | reflexivity].
  reflexivity.
Qed.

(** C9, as stated, fails when a page that announces more is empty: the
    first fetch returns no item, [Next] answers "no item", and [ToSlice]
    stops there with an empty result after one network call, although
    the two pages behind hold the items 7 and 8. *)
Lemma empty_page_ends_ToSlice :
  ToSlice (client := server_client (scripted empty_first_page)) 10
    (NewIterator "/v0/search-messages" ∅) []
  = Some ((Some [], None),
          mkIterator "/v0/search-messages" ∅ (Some "c1") (Some 0) (Some "")
            true 0%nat [],
          [("GET", "/v0/search-messages", ∅)]) /\
  map HasMore (omap Pagination empty_first_page) = [true; true; false] /\
  map info_Cursor (omap Pagination empty_first_page)
  = [Some "c1"; Some "c2"; None] /\
  concat (map Items empty_first_page) = [7; 8] /\
  length [("GET", "/v0/search-messages", ∅ : Params)] = 1%nat.
Proof.
  split; [apply (ToSlice_empty_first_page 9) | repeat split].
Qed.

(** *** The indexed-bracket keys of [Messages.Search] *)


Lemma append_inj_l (p a b : string) : p +:+ a = p +:+ b -> a = b.
Proof. induction p as [|c p IH]; simpl; [auto | intros [= E]; auto]. Qed.







(** ** Client construction *)

(** C7. When the access token that the defaults and the options resolve
    to is empty, [New] returns no client and an Authentication error
    with status 401, having constructed nothing: no transport, no retry
    engine, no resource handle.  And a client that [New] does return
    has a non-empty token, the resolved one. *)
Theorem New_requires_token :
  forall (Getenv : string -> string) (Version : string)
         (opts : list ClientOption),
    (AccessToken (resolved_config Getenv Version opts) = "" ->
     New Getenv Version opts
     = ((None,
         Some (AuthenticationError
                 (mkAPIError 401 "access token is required" "" ∅))),
        [])) /\
    (forall client err made,
        New Getenv Version opts = ((Some client, err), made) ->
        accessToken client <> "" /\
        accessToken client = AccessToken (resolved_config Getenv Version opts)).
Proof.
  intros Getenv Version opts. unfold New.
  destruct (String.eqb_spec (AccessToken (resolved_config Getenv Version opts)) "")
    as [E|NE].
  - split; [reflexivity | discriminate].
  - split; [contradiction|].
    intros client err made H.
    destruct (HTTPClient _); inversion H; subst; cbn; auto.
Qed.

Lemma New_requires_token_witness :
  New empty_environment "0.1.0" [WithMaxRetries 5; WithAccessToken ""]
  = ((None,
      Some (AuthenticationError
              (mkAPIError 401 "access token is required" "" ∅))),
     []) /\
  forall client err made,
    New empty_environment "0.1.0" [WithAccessToken "token"]
    = ((Some client, err), made) ->
    accessToken client <> "" /\ accessToken client = "token".
Proof.
  split.
  - exact (proj1 (New_requires_token empty_environment "0.1.0"
                    [WithMaxRetries 5; WithAccessToken ""]) eq_refl).
  - exact (proj2 (New_requires_token empty_environment "0.1.0"
                    [WithAccessToken "token"])).
Defined.

(** * Part III: further properties of the code *)

Lemma append_assoc (a b c : string) : (a +:+ b) +:+ c = a +:+ (b +:+ c).
Proof.
  induction a as [|x a IH]; [reflexivity | exact (f_equal (String x) IH)].
Qed.

Lemma append_nil_r (a : string) : a +:+ "" = a.
Proof.
  induction a as [|x a IH]; [reflexivity | exact (f_equal (String x) IH)].
Qed.

Lemma length_append (a b : string) :
  String.length (a +:+ b) = (String.length a + String.length b)%nat.
Proof.
  induction a as [|x a IH]; [reflexivity | exact (f_equal S IH)].
Qed.

(** ** Retry engine *)

(** X1. When the context is live and the first invocation of the
    operation succeeds, [Do] returns nil after that single invocation,
    without sleeping. *)
Theorem Do_success_first_try :
  forall (W : Type) (ctx_Err : W -> option error)
         (select_After_Done : Z -> W -> wake * W) (overflow : Z)
         (r : RetryLogic) (fn : W -> option error * W) (w w1 : W),
    0 <= maxRetries r ->
    ctx_Err w = None ->
    fn w = (None, w1) ->
    Do ctx_Err select_After_Done overflow r fn w = (None, w1, [Invoke]).
Proof.
  intros W ctx_Err sel ov r fn w w1 Hr Hctx Hfn. unfold Do.
  destruct (iterations_positive r Hr) as [n ->].
  cbn [Do_loop]. now rewrite Hctx, Hfn.
Qed.

Lemma Do_success_first_try_witness :
  Do never_cancelled timer_fires overflow_amd64 (NewRetryLogic 0)
     (fun calls : nat => (None, S calls)) 0%nat
  = (None, 1%nat, [Invoke]).
Proof.
  apply (Do_success_first_try nat never_cancelled timer_fires overflow_amd64
           (NewRetryLogic 0) (fun calls => (None, S calls)) 0%nat 1%nat);
    [simpl; lia | reflexivity | reflexivity].
Defined.

(** X2. Whatever the retry count, the operation, the context and the
    world, [Do] invokes the operation at most once and never sleeps: its
    trace is empty or a single invocation. *)
Theorem Do_at_most_one_attempt :
  forall (W : Type) (ctx_Err : W -> option error)
         (select_After_Done : Z -> W -> wake * W) (overflow : Z)
         (r : RetryLogic) (fn : W -> option error * W) (w : W),
    snd (Do ctx_Err select_After_Done overflow r fn w) = [] \/
    snd (Do ctx_Err select_After_Done overflow r fn w) = [Invoke].
Proof.
  intros W ctx_Err sel ov r fn w. unfold Do.
  destruct (Z.to_nat (maxRetries r + 1)) as [|n]; [left; reflexivity|].
  cbn [Do_loop]. destruct (ctx_Err w); [left; reflexivity|].
  destruct (fn w) as [[e|] w1]; right; reflexivity.
Qed.

(** X3. With a negative retry count [Do] never calls the operation and
    never looks at the context: it returns at once the wrapping error,
    whose message counts [maxRetries + 1] attempts and prints the
    missing cause as [%!w(<nil>)]. *)
Theorem Do_negative_retry_count :
  forall (W : Type) (ctx_Err : W -> option error)
         (select_After_Done : Z -> W -> wake * W) (overflow : Z)
         (r : RetryLogic) (fn : W -> option error * W) (w : W),
    maxRetries r < 0 ->
    exists err,
      Do ctx_Err select_After_Done overflow r fn w = (Some err, w, []) /\
      err = wrapError
              ("request failed after " +:+ FormatInt (maxRetries r + 1)
                 +:+ " attempts: %!w(<nil>)") None.
Proof.
  intros W ctx_Err sel ov r fn w Hr. eexists. split.
  - apply Do_negative_maxRetries. exact Hr.
  - unfold Errorf_w. f_equal.
    now rewrite !append_assoc.
Qed.

Lemma Do_negative_retry_count_witness :
  exists err,
    Do already_cancelled timer_fires overflow_amd64 (NewRetryLogic (-1))
       always_conflict 0%nat = (Some err, 0%nat, []) /\
    err = wrapError "request failed after 0 attempts: %!w(<nil>)" None.
Proof.
  apply (Do_negative_retry_count nat already_cancelled timer_fires
           overflow_amd64 (NewRetryLogic (-1)) always_conflict 0%nat).
  simpl; lia.
Defined.

(** X4. For the attempts 0 to 35 the delay of a [NewRetryLogic] engine
    is [min(250ms * 2^attempt, 10s)] on every platform, and so lies
    between the base delay and the cap. *)
Theorem calculateDelay_backoff :
  forall (overflow n i : Z),
    0 <= i <= 35 ->
    calculateDelay overflow (NewRetryLogic n) i
    = Z.min (250 * Millisecond * 2 ^ i) (10000 * Millisecond) /\
    250 * Millisecond <= calculateDelay overflow (NewRetryLogic n) i
                      <= 10000 * Millisecond.
Proof.
  intros ov n i Hi. rewrite calculateDelay_in_range by exact Hi.
  split; [reflexivity|].
  assert (H0 : 2 ^ 0 <= 2 ^ i) by (apply Z.pow_le_mono_r; lia).
  change (2 ^ 0) with 1 in H0. unfold Millisecond. lia.
Qed.

Lemma calculateDelay_backoff_witness :
  calculateDelay overflow_amd64 (NewRetryLogic 2) 3
  = Z.min (250 * Millisecond * 2 ^ 3) (10000 * Millisecond) /\
  250 * Millisecond <= calculateDelay overflow_amd64 (NewRetryLogic 2) 3
                    <= 10000 * Millisecond.
Proof.
  apply (calculateDelay_backoff overflow_amd64 2 3). lia.
Defined.

(** Where the out-of-range conversion saturates (arm64), the delay
    of a [NewRetryLogic] engine is [min(250ms * 2^attempt, 10s)] for
    every attempt from 0 on. *)
Theorem calculateDelay_saturating :
  forall (n i : Z),
    0 <= i ->
    calculateDelay overflow_arm64 (NewRetryLogic n) i
    = Z.min (250 * Millisecond * 2 ^ i) (10000 * Millisecond).
Proof.
  intros n i Hi. destruct (Z_le_gt_dec i 35) as [Hle|Hgt].
  - apply calculateDelay_in_range. lia.
  - rewrite calculateDelay_out_of_range by lia.
    assert (H36 : 2 ^ 36 <= 2 ^ i) by (apply Z.pow_le_mono_r; lia).
    change (2 ^ 36) with 68719476736 in H36.
    unfold overflow_arm64, MaxInt64, Millisecond.
    change (2 ^ 63) with 9223372036854775808. lia.
Qed.

Lemma calculateDelay_saturating_witness :
  calculateDelay overflow_arm64 (NewRetryLogic 40) 36
  = Z.min (250 * Millisecond * 2 ^ 36) (10000 * Millisecond).
Proof.
  apply (calculateDelay_saturating 40 36). lia.
Defined.

(** ** Error taxonomy *)

(** X5. [IsRetryableError] is true exactly for the connection errors,
    for Conflict, RateLimit and InternalServerError values whatever
    status they carry, and for a plain [*APIError] with status 408 or at
    least 500.  It looks at the dynamic type only: an error wrapped by
    [fmt.Errorf] is not retryable, whatever it wraps. *)
Theorem IsRetryableError_exactly :
  forall err : error,
    (IsRetryableError err = true <->
     kind_of err = KConnectionError \/ kind_of err = KConnectionTimeout \/
     kind_of err = KConflict \/ kind_of err = KRateLimit \/
     kind_of err = KInternalServerError \/
     exists e, err = APIErrorPtr e /\ (Status e = 408 \/ 500 <= Status e)) /\
    (forall prefix, IsRetryableError (Errorf_w prefix (Some err)) = false).
Proof.
  intros err. split; [|reflexivity].
  destruct err; cbn; split; intros H;
    try discriminate; try reflexivity;
    try (repeat (destruct H as [H|H]; try discriminate);
         try (destruct H as (e0 & H & _); discriminate));
    auto 10.
  - do 5 right. exists e. split; [reflexivity|].
    apply orb_true_iff in H. destruct H as [H|H]; [left|right]; lia.
  - destruct H as (e0 & [= <-] & [H|H]); apply orb_true_iff;
      [left | right]; lia.
Qed.

(** X6. For every status code, [handleErrorResponse] yields a typed API
    error that carries that status; the error is an InternalServerError
    exactly when the status is at least 500, and it is retryable in the
    sense of [IsRetryableError] exactly for the statuses 408, 409, 429
    and those from 500 on. *)
Theorem handleErrorResponse_every_status :
  forall (json_Unmarshal : string -> errorResp) (status : Z) (body : string),
    let err := handleErrorResponse json_Unmarshal status body in
    (exists e, api_fields err = Some e /\ Status e = status) /\
    (kind_of err = KInternalServerError <-> 500 <= status) /\
    (IsRetryableError err = true <->
     status = 408 \/ status = 409 \/ status = 429 \/ 500 <= status).
Proof.
  intros json status body err. subst err. unfold handleErrorResponse.
  set (apiError := mkAPIError status _ _ _).
  assert (Hst : Status apiError = status) by reflexivity.
  clearbody apiError.
  case_bool_Z; cbn; rewrite ?Hst;
    (split; [eexists; split; [reflexivity | exact Hst] |]);
    (split; split; intros Hx; try discriminate; try reflexivity; try lia).
  all: try (apply orb_true_iff in Hx; destruct Hx as [Hx|Hx]; lia).
  all: try (apply orb_true_iff; destruct Hx as [Hx|[Hx|[Hx|Hx]]];
            (left; lia) || (right; lia)).
Qed.

(** ** Pagination iterator *)

Section IteratorMore.

Context {W T : Type} `{client : RequestClient W T}.

Lemma Next_keeps_index_in_range (it : Iterator T) (w : W) :
  (currentIdx it <= length (currentPage it))%nat ->
  (currentIdx (Next it w).1.2 <= length (currentPage (Next it w).1.2))%nat.
Proof.
  intros Hidx. unfold Next.
  destruct (currentPage it !! currentIdx it) as [item|] eqn:E.
  - apply lookup_lt_Some in E. cbn. lia.
  - destruct (hasMore it); cbn [negb]; [|exact Hidx].
    unfold fetchNextPage.
    destruct (DoRequestWithQuery w "GET" (path it) (fetch_params it))
      as [[err|response] w']; [exact Hidx|].
    destruct (Pagination response) as [p|];
      destruct (Items response) as [|x rest]; cbn; lia.
Qed.

Lemma NextN_keeps_index_in_range n : forall (it : Iterator T) (w : W),
  (currentIdx it <= length (currentPage it))%nat ->
  (currentIdx (NextN n it w).1.2 <= length (currentPage (NextN n it w).1.2))%nat.
Proof.
  induction n as [|n IH]; intros it w Hidx; [exact Hidx|].
  cbn [NextN].
  pose proof (Next_keeps_index_in_range it w Hidx) as Hnext.
  destruct (Next it w) as [[r it1] w1]. cbn [fst snd] in Hnext.
  specialize (IH it1 w1 Hnext).
  destruct (NextN n it1 w1) as [[rs it2] w2]. exact IH.
Qed.

(** What the steps of [fetch_params] do to a key. *)
Lemma fetch_params_other (it : Iterator T) (k : string) :
  k <> "cursor" -> k <> "limit" -> k <> "direction" ->
  fetch_params it !! k = params it !! k.
Proof.
  intros Hc Hl Hd. unfold fetch_params.
  destruct (direction it) as [d|]; [destruct (nonempty d)|];
    destruct (limit it) as [l|]; try destruct (0 <? l);
    destruct (cursor it) as [c|]; try destruct (nonempty c);
    rewrite ?lookup_insert_ne by congruence; reflexivity.
Qed.

Lemma fetch_params_cursor_set (it : Iterator T) (c : string) :
  cursor it = Some c -> c <> "" ->
  fetch_params it !! "cursor" = Some (Some (VString c)).
Proof.
  intros Hc Hne. unfold fetch_params. rewrite Hc.
  assert (Hn : nonempty c = true).
  { unfold nonempty. now destruct (String.eqb_spec c ""). }
  rewrite Hn.
  destruct (direction it) as [d|]; [destruct (nonempty d)|];
    destruct (limit it) as [l|]; try destruct (0 <? l);
    rewrite ?lookup_insert_ne by discriminate;
    apply lookup_insert_eq.
Qed.

Lemma fetch_params_cursor_unset (it : Iterator T) :
  cursor it = None \/ cursor it = Some "" ->
  fetch_params it !! "cursor" = params it !! "cursor".
Proof.
  intros Hc. unfold fetch_params.
  assert (E : match cursor it with
              | Some c => if nonempty c
                          then <["cursor" := Some (VString c)]> (params it)
                          else params it
              | None => params it
              end = params it) by (destruct Hc as [-> | ->]; reflexivity).
  rewrite E.
  destruct (direction it) as [d|]; [destruct (nonempty d)|];
    destruct (limit it) as [l|]; try destruct (0 <? l);
    rewrite ?lookup_insert_ne by discriminate; reflexivity.
Qed.

End IteratorMore.

(** X7. Starting from a fresh iterator, after any number of calls of
    [Next] against any client the index is at most the length of the
    buffer: the indexing [it.currentPage[it.currentIdx]] is always
    guarded. *)
Theorem iterator_index_in_range :
  forall (W T : Type) (client : RequestClient W T)
         (endpoint : string) (query : Params) (n : nat) (w : W),
    (currentIdx (NextN n (NewIterator endpoint query) w).1.2
     <= length (currentPage (NextN n (NewIterator endpoint query) w).1.2))%nat.
Proof.
  intros W T client endpoint query n w.
  apply NextN_keeps_index_in_range. cbn. lia.
Qed.

(** X8. Once [HasNext] is false, [Next] returns "no item" without any
    request and leaves the iterator as it is (so [HasNext] stays false),
    and [ToSlice] returns an empty result at once. *)
Theorem exhausted_iterator_is_inert :
  forall (W T : Type) (client : RequestClient W T) (it : Iterator T) (w : W)
         (fuel : nat),
    HasNext it = false ->
    Next it w = ((None, None), it, w) /\
    ToSlice (S fuel) it w = Some ((Some [], None), it, w).
Proof.
  intros W T client it w fuel H. unfold HasNext in H.
  apply orb_false_iff in H. destruct H as [Hidx Hmore].
  apply Nat.ltb_ge in Hidx. split.
  - unfold Next. rewrite (lookup_ge_None_2 _ _ Hidx), Hmore. reflexivity.
  - unfold ToSlice. cbn [ToSlice_loop]. unfold HasNext.
    rewrite Hmore, orb_false_r.
    now replace (currentIdx it <? length (currentPage it))%nat with false
      by (symmetry; apply Nat.ltb_ge; exact Hidx).
Qed.

Lemma exhausted_iterator_is_inert_witness :
  Next (client := server_client (scripted one_page)) exhausted_iterator []
  = ((None, None), exhausted_iterator, []) /\
  ToSlice (client := server_client (scripted one_page)) 1 exhausted_iterator []
  = Some ((Some [], None), exhausted_iterator, []).
Proof.
  apply (exhausted_iterator_is_inert (list request) Z
           (server_client (scripted one_page)) exhausted_iterator [] 0).
  reflexivity.
Defined.

(** The three steps of [fetch_params] write nothing new when the
    iterator's cursor is unset or is the caller's, and its limit and
    direction are the ones [NewIterator] read from the same parameters. *)
Lemma fetch_params_nothing_new (T : Type) (endpoint : string) (query : Params)
    (c : option string) :
  c = None \/ c = Some "" \/ c = cursor (@NewIterator T endpoint query) ->
  fetch_params
    (mkIterator endpoint query c
       (limit (@NewIterator T endpoint query))
       (direction (@NewIterator T endpoint query))
       true 0%nat (@nil T))
  = query.
Proof.
  intros Hc. unfold fetch_params, NewIterator in *.
  cbn [params cursor limit direction] in *.
  assert (E1 : match c with
               | Some c0 => if nonempty c0
                            then <["cursor" := Some (VString c0)]> query
                            else query
               | None => query
               end = query).
  { destruct Hc as [-> | [-> | ->]]; [reflexivity | reflexivity |].
    destruct (query !! "cursor") as [[v|]|] eqn:E; try reflexivity.
    destruct v; try reflexivity.
    destruct (nonempty s); [now apply insert_id | reflexivity]. }
  rewrite E1.
  assert (E2 : (if 0 <? match query !! "limit" with
                        | Some (Some (VInt KInt i)) => i
                        | _ => 0
                        end
                then <["limit" :=
                         Some (VInt KInt
                                 match query !! "limit" with
                                 | Some (Some (VInt KInt i)) => i
                                 | _ => 0
                                 end)]> query
                else query) = query).
  { destruct (query !! "limit") as [[v|]|] eqn:E; try reflexivity.
    destruct v as [| k i | | | | | | | | |]; try reflexivity.
    destruct k; try reflexivity.
    destruct (0 <? i); [now apply insert_id | reflexivity]. }
  rewrite E2.
  destruct (query !! "direction") as [[v|]|] eqn:E; try reflexivity.
  destruct v; try reflexivity.
  destruct (nonempty s); [now apply insert_id | reflexivity].
Qed.

(** X9. The first request of a fresh iterator carries exactly the
    caller's parameters, and the first call of [Next] makes exactly that
    request: [GET] on the bound path. *)
Theorem first_request_is_the_callers :
  forall (W T : Type) (client : RequestClient W T)
         (endpoint : string) (query : Params) (w : W),
    fetch_params (@NewIterator T endpoint query) = query /\
    (Next (NewIterator endpoint query) w).2
    = (DoRequestWithQuery w "GET" endpoint query).2.
Proof.
  intros W T client endpoint query w.
  assert (E : fetch_params (@NewIterator T endpoint query) = query).
  { apply (fetch_params_nothing_new T endpoint query). auto. }
  split; [exact E|].
  unfold Next. cbn [currentPage currentIdx hasMore NewIterator negb].
  change (@nil T !! 0%nat) with (@None T).
  unfold fetchNextPage. rewrite E. cbn [path NewIterator].
  destruct (DoRequestWithQuery w "GET" endpoint query) as [[err|response] w'];
    [reflexivity|].
  destruct (Pagination response); destruct (Items response); reflexivity.
Qed.

(** X10. The query of a fetch is the bound parameters with the
    iterator's own cursor written over the caller's: a non-empty cursor
    replaces it, an unset or empty one leaves it, and every key other
    than cursor, limit and direction passes through untouched. *)
Theorem fetch_params_merge :
  forall (T : Type) (it : Iterator T),
    (forall k, k <> "cursor" -> k <> "limit" -> k <> "direction" ->
               fetch_params it !! k = params it !! k) /\
    (forall c, cursor it = Some c -> c <> "" ->
               fetch_params it !! "cursor" = Some (Some (VString c))) /\
    (cursor it = None \/ cursor it = Some "" ->
     fetch_params it !! "cursor" = params it !! "cursor").
Proof.
  intros T it. split; [|split].
  - apply fetch_params_other.
  - apply fetch_params_cursor_set.
  - apply fetch_params_cursor_unset.
Qed.

Lemma fetch_params_merge_witness :
  fetch_params midway_iterator !! "query" = Some (Some (VString "cats")) /\
  fetch_params midway_iterator !! "cursor" = Some (Some (VString "c1")) /\
  fetch_params exhausted_iterator !! "cursor" = None.
Proof.
  split; [|split].
  - exact (proj1 (fetch_params_merge Z midway_iterator) "query"
             ltac:(discriminate) ltac:(discriminate) ltac:(discriminate)).
  - exact (proj1 (proj2 (fetch_params_merge Z midway_iterator)) "c1"
             eq_refl ltac:(discriminate)).
  - exact (proj2 (proj2 (fetch_params_merge Z exhausted_iterator))
             (or_introl eq_refl)).
Defined.

(** X11. A page fetched with pagination metadata replaces the buffer,
    resets the index, and hands its cursor and has-more flag to the
    iterator: the next request asks for the page's cursor, and path,
    bound parameters, limit and direction stay as they were. *)
Theorem fetched_cursor_drives_next_request :
  forall (W T : Type) (client : RequestClient W T) (it : Iterator T)
         (w w' : W) (page : Cursor T) (p : PaginationInfo) (c : string),
    DoRequestWithQuery w "GET" (path it) (fetch_params it) = (inr page, w') ->
    Pagination page = Some p ->
    info_Cursor p = Some c ->
    c <> "" ->
    exists it',
      fetchNextPage it w = (None, it', w') /\
      currentPage it' = Items page /\ currentIdx it' = 0%nat /\
      hasMore it' = HasMore p /\
      fetch_params it' !! "cursor" = Some (Some (VString c)) /\
      path it' = path it /\ params it' = params it /\
      limit it' = limit it /\ direction it' = direction it.
Proof.
  intros W T client it w w' page p c Hreq Hp Hc Hne.
  unfold fetchNextPage. rewrite Hreq, Hp. eexists. split; [reflexivity|].
  repeat split.
  apply fetch_params_cursor_set; [exact Hc | exact Hne].
Qed.

Lemma fetched_cursor_drives_next_request_witness :
  exists it',
    fetchNextPage (client := server_client (scripted three_pages))
      (NewIterator "/v0/search-messages" ∅) []
    = (None, it', [("GET", "/v0/search-messages", ∅)]) /\
    currentPage it' = [1; 2] /\ currentIdx it' = 0%nat /\
    hasMore it' = true /\
    fetch_params it' !! "cursor" = Some (Some (VString "c1")) /\
    path it' = "/v0/search-messages" /\ params it' = ∅ /\
    limit it' = Some 0 /\ direction it' = Some "".
Proof.
  exact (fetched_cursor_drives_next_request (list request) Z
           (server_client (scripted three_pages))
           (NewIterator "/v0/search-messages" ∅) []
           [("GET", "/v0/search-messages", ∅)]
           (mkCursor [1; 2] (Some (more_after "c1"))) (more_after "c1") "c1"
           eq_refl eq_refl eq_refl ltac:(discriminate)).
Defined.



(** X13. When the fetch fails, [Next] returns no item and the client's
    error wrapped as "failed to fetch page: ..."; the iterator is left
    exactly as it was, so the next call repeats the same request; and
    the wrapped error is not retryable for [IsRetryableError], whatever
    the client's error was. *)
Theorem Next_fetch_failure :
  forall (W T : Type) (client : RequestClient W T) (it : Iterator T)
         (w w' : W) (err : error),
    currentPage it !! currentIdx it = None ->
    hasMore it = true ->
    DoRequestWithQuery w "GET" (path it) (fetch_params it) = (inl err, w') ->
    exists wrapped,
      Next it w = ((None, Some wrapped), it, w') /\
      wrapped = wrapError ("failed to fetch page: " +:+ Error err) (Some err) /\
      IsRetryableError wrapped = false.
Proof.
  intros W T client it w w' err Hbuf Hmore Hreq. eexists. split; [|split].
  - unfold Next. rewrite Hbuf, Hmore. cbn [negb].
    unfold fetchNextPage. rewrite Hreq. reflexivity.
  - reflexivity.
  - reflexivity.
Qed.

Lemma Next_fetch_failure_witness :
  exists wrapped,
    Next (client := server_client unreachable)
      (NewIterator "/v0/search-chats" ∅) []
    = ((None, Some wrapped), NewIterator "/v0/search-chats" ∅,
       [("GET", "/v0/search-chats", ∅)]) /\
    wrapped
    = wrapError
        ("failed to fetch page: "
           +:+ Error (APIConnectionError "request failed: connection refused"
                        None))
        (Some (APIConnectionError "request failed: connection refused" None)) /\
    IsRetryableError wrapped = false.
Proof.
  exact (Next_fetch_failure (list request) Z (server_client unreachable)
           (NewIterator "/v0/search-chats" ∅) []
           [("GET", "/v0/search-chats", ∅)]
           (APIConnectionError "request failed: connection refused" None)
           eq_refl eq_refl eq_refl).
Defined.

(** X14. [ToSlice] returns no partial result: when items remain in the
    buffer, more pages are announced and the fetch that follows the last
    buffered item fails, [ToSlice] returns nil and the wrapped error,
    after one request; the items collected so far are dropped. *)
Theorem ToSlice_drops_partial_result :
  forall (W T : Type) (client : RequestClient W T) (it : Iterator T)
         (w w' : W) (err : error) (n fuel : nat),
    (currentIdx it + n = length (currentPage it))%nat ->
    hasMore it = true ->
    DoRequestWithQuery w "GET" (path it) (fetch_params it) = (inl err, w') ->
    ToSlice (n + S fuel) it w
    = Some ((None, Some (Errorf_w "failed to fetch page: " (Some err))),
            set_currentIdx it (length (currentPage it)), w').
Proof.
  intros W T client it w w' err n fuel Hlen Hmore Hreq.
  unfold ToSlice. rewrite ToSlice_loop_buffer by exact Hlen.
  cbn [ToSlice_loop]. unfold HasNext, Next.
  cbn [set_currentIdx currentIdx currentPage hasMore].
  rewrite Hmore, orb_true_r.
  rewrite lookup_ge_None_2 by lia. cbn [negb].
  unfold fetchNextPage.
  change (fetch_params (set_currentIdx it (length (currentPage it))))
    with (fetch_params it).
  cbn [path set_currentIdx]. rewrite Hreq. reflexivity.
Qed.

Lemma ToSlice_drops_partial_result_witness :
  ToSlice (client := server_client unreachable) 2 midway_iterator []
  = Some ((None,
           Some (Errorf_w "failed to fetch page: "
                   (Some (APIConnectionError
                            "request failed: connection refused" None)))),
          set_currentIdx midway_iterator 2%nat,
          [("GET", "/v0/search-chats", fetch_params midway_iterator)]).
Proof.
  exact (ToSlice_drops_partial_result (list request) Z
           (server_client unreachable) midway_iterator []
           [("GET", "/v0/search-chats", fetch_params midway_iterator)]
           (APIConnectionError "request failed: connection refused" None)
           1 0 eq_refl eq_refl eq_refl).
Defined.

(** X15. While the buffer holds at least [k] more items, [k] calls of
    [Next] return those items in order, advance the index by [k], and
    make no request, whether or not more pages are announced. *)
Theorem NextN_walks_buffer :
  forall (W T : Type) (client : RequestClient W T) (k : nat)
         (it : Iterator T) (w : W),
    (currentIdx it + k <= length (currentPage it))%nat ->
    NextN k it w
    = (map (fun x => (Some x, None))
         (take k (drop (currentIdx it) (currentPage it))),
       set_currentIdx it (currentIdx it + k), w).
Proof.
  intros W T client k. induction k as [|k IH]; intros it w Hlen.
  - cbn [NextN take map]. rewrite Nat.add_0_r.
    now rewrite set_currentIdx_same.
  - destruct (lookup_lt_is_Some_2 (currentPage it) (currentIdx it))
      as [item E]; [lia|].
    cbn [NextN]. unfold Next. rewrite E.
    rewrite (IH (set_currentIdx it (S (currentIdx it))) w) by (cbn; lia).
    cbn [set_currentIdx currentIdx currentPage].
    rewrite (drop_S _ _ _ E). cbn [take map].
    replace (S (currentIdx it) + k)%nat with (currentIdx it + S k)%nat by lia.
    reflexivity.
Qed.

Lemma NextN_walks_buffer_witness :
  NextN (client := server_client unreachable) 1 midway_iterator []
  = ([(Some 20, None)], set_currentIdx midway_iterator 2%nat, []).
Proof.
  exact (NextN_walks_buffer (list request) Z (server_client unreachable) 1
           midway_iterator [] ltac:(cbn; lia)).
Defined.

(** X16. When no more pages are announced, [ToSlice] returns exactly the
    items left in the buffer, in order, without any request. *)
Theorem ToSlice_last_page :
  forall (W T : Type) (client : RequestClient W T) (it : Iterator T)
         (w : W) (n fuel : nat),
    hasMore it = false ->
    (currentIdx it + n = length (currentPage it))%nat ->
    ToSlice (n + S fuel) it w
    = Some ((Some (drop (currentIdx it) (currentPage it)), None),
            set_currentIdx it (length (currentPage it)), w).
Proof.
  intros W T client it w n fuel Hmore Hlen.
  unfold ToSlice. rewrite ToSlice_loop_buffer by exact Hlen.
  now rewrite ToSlice_loop_stop.
Qed.

(** From index 1 of the last page [10; 20; 30]: the result is [20; 30],
    the index ends at 3 and the request history stays empty. *)
Lemma ToSlice_last_page_witness :
  ToSlice (client := server_client unreachable) 3 last_page_iterator []
  = Some ((Some [20; 30], None), set_currentIdx last_page_iterator 3%nat, []).
Proof.
  exact (ToSlice_last_page (list request) Z (server_client unreachable)
           last_page_iterator [] 2 0 eq_refl eq_refl).
Defined.

(** ** Query encoder *)

Lemma fold_left_skip {A B} (f : A -> B -> A) (p : B -> bool) (l : list B) :
  (forall a b, p b = false -> f a b = a) ->
  forall a, fold_left f (List.filter p l) a = fold_left f l a.
Proof.
  intros Hskip. induction l as [|b l IH]; intros a; cbn; [reflexivity|].
  destruct (p b) eqn:E; cbn; [apply IH|].
  rewrite (Hskip a b E). apply IH.
Qed.


Lemma fold_left_unchanged {A B} (f : A -> B -> A) (l : list B) (a : A) :
  (forall b, In b l -> f a b = a) -> fold_left f l a = a.
Proof.
  induction l as [|b l IH]; intros H; cbn; [reflexivity|].
  rewrite (H b) by now left. apply IH. intros b' Hb'. apply H. now right.
Qed.

(** Adding a list of fresh, pairwise distinct keys builds the map that
    holds each key with its one value. *)
Lemma fold_Add_fresh (l : list (string * string)) : forall params : Values,
  NoDup l.*1 ->
  (forall k, k ∈ l.*1 -> params !! k = None) ->
  fold_left (fun p (kv : string * string) => Add p kv.1 kv.2) l params
  = list_to_map ((fun kv : string * string => (kv.1, [kv.2])) <$> l) ∪ params.
Proof.
  induction l as [|[k v] l IH]; intros params Hnd Hfresh.
  - cbn. now rewrite (left_id_L ∅ (∪)).
  - apply NoDup_cons in Hnd as [Hk Hnd]. cbn [fold_left fst snd].
    unfold Add at 2. rewrite (Hfresh k) by (cbn; left).
    cbn [default app]. rewrite IH; [|exact Hnd|].
    + cbn [fmap list_fmap fst snd]. rewrite list_to_map_cons.
      rewrite <- insert_union_l. symmetry. apply insert_union_r.
      apply not_elem_of_list_to_map_1.
      now rewrite <- list_fmap_compose.
    + intros k' Hk'. rewrite lookup_insert_ne by (intros ->; contradiction).
      apply Hfresh. cbn. now right.
Qed.

Section EncoderMore.

Variable FormatFloat : spec_float -> string.
Variable as_Stringer : value -> option string.
Variable as_Time : value -> option string.

Local Abbreviation fieldValueToString :=
  (fieldValueToString FormatFloat as_Stringer as_Time).
Local Abbreviation add_map_entry := (add_map_entry FormatFloat as_Stringer as_Time).
Local Abbreviation add_sub_entry := (add_sub_entry FormatFloat as_Stringer as_Time).
Local Abbreviation add_field := (add_field FormatFloat as_Stringer as_Time).
Local Abbreviation StructToQueryParams :=
  (StructToQueryParams FormatFloat as_Stringer as_Time).
Local Abbreviation rendered :=
  (rendered_entries FormatFloat as_Stringer as_Time).

Lemma add_field_not_encodable params f :
  encodable f = false -> add_field params f = params.
Proof.
  destruct f as [[exported tag] field]. unfold encodable, internal.add_field.
  destruct exported; cbn [negb andb]; [|reflexivity].
  destruct (_ || _); cbn [negb andb]; [reflexivity|].
  destruct field as [| | | | |[e|]| | | | |]; intros H;
    try discriminate H; reflexivity.
Qed.



Lemma fold_add_map_entry_rendered entries : forall params,
  fold_left add_map_entry entries params
  = fold_left (fun p (kv : string * string) => Add p kv.1 kv.2)
      (rendered entries) params.
Proof.
  induction entries as [|[k v] entries IH]; intros params; [reflexivity|].
  cbn [fold_left]. rewrite IH. unfold internal.add_map_entry.
  unfold rendered_entries. cbn [omap list_omap fst snd].
  destruct (nilable_IsNil v); [reflexivity|].
  destruct (nonempty _); reflexivity.
Qed.

Lemma fold_add_sub_entry_rendered name entries : forall params,
  fold_left (add_sub_entry name) entries params
  = fold_left (fun p (kv : string * string) => Add p kv.1 kv.2)
      ((fun kv : string * string => (name +:+ "." +:+ kv.1, kv.2))
         <$> rendered entries)
      params.
Proof.
  induction entries as [|[k v] entries IH]; intros params; [reflexivity|].
  cbn [fold_left]. rewrite IH. unfold internal.add_sub_entry.
  unfold rendered_entries. cbn [omap list_omap fst snd].
  destruct (nilable_IsNil v); [reflexivity|].
  destruct (nonempty _); reflexivity.
Qed.

Lemma rendered_entries_keys entries k :
  k ∈ (rendered entries).*1 -> k ∈ entries.*1.
Proof.
  unfold rendered_entries.
  induction entries as [|[k0 v0] entries IH]; cbn [omap list_omap fst snd];
    [auto|].
  cbn [fmap list_fmap fst].
  destruct (nilable_IsNil v0); [intros H; right; auto|].
  destruct (nonempty _); cbn [fmap list_fmap fst].
  - intros H. apply elem_of_cons in H as [->|H]; [left | right; auto].
  - intros H; right; auto.
Qed.

Lemma rendered_entries_NoDup entries :
  NoDup entries.*1 -> NoDup (rendered entries).*1.
Proof.
  induction entries as [|[k0 v0] entries IH]; intros Hnd; [constructor|].
  cbn [fmap list_fmap fst] in Hnd. apply NoDup_cons in Hnd as [Hk Hnd].
  specialize (IH Hnd).
  pose proof (rendered_entries_keys entries k0) as Hsub.
  unfold rendered_entries in *.
  cbn [omap list_omap fst snd].
  destruct (nilable_IsNil v0); [exact IH|].
  destruct (nonempty _); [|exact IH].
  cbn [fmap list_fmap fst]. apply NoDup_cons. split; [|exact IH].
  intros Hin. apply Hk, Hsub, Hin.
Qed.

End EncoderMore.

(** X17. Fields that are unexported, that have no [json] tag or the tag
    "-", or that are nil pointers play no part: the encoding of a struct
    is the encoding of the struct without them. *)
Theorem StructToQueryParams_skips :
  forall (FormatFloat : spec_float -> string)
         (as_Stringer as_Time : value -> option string)
         (fields : list (bool * string * value)),
    StructToQueryParams FormatFloat as_Stringer as_Time
      (VStruct (List.filter encodable fields))
    = StructToQueryParams FormatFloat as_Stringer as_Time (VStruct fields).
Proof.
  intros FF aS aT fields. cbn [internal.StructToQueryParams].
  apply fold_left_skip. intros a b. apply add_field_not_encodable.
Qed.



Lemma map_mode_one_key_per_entry_aux FF aS aT (entries : list (string * value)) :
  NoDup entries.*1 ->
  StructToQueryParams FF aS aT (VMap (Some entries))
  = list_to_map
      ((fun kv : string * string => (kv.1, [kv.2]))
         <$> rendered_entries FF aS aT entries).
Proof.
  intros Hnd. cbn [internal.StructToQueryParams default].
  rewrite fold_add_map_entry_rendered.
  rewrite fold_Add_fresh.
  - apply (right_id_L ∅ (∪)).
  - now apply rendered_entries_NoDup.
  - intros; apply lookup_empty.
Qed.

(** X19. In map mode, when the keys are pairwise distinct, the output
    holds exactly one key per entry that is not nil and does not render
    empty, with the rendering of the entry as its single value. *)
Theorem map_mode_one_key_per_entry :
  forall (FormatFloat : spec_float -> string)
         (as_Stringer as_Time : value -> option string)
         (entries : list (string * value)),
    NoDup entries.*1 ->
    StructToQueryParams FormatFloat as_Stringer as_Time (VMap (Some entries))
    = list_to_map
        ((fun kv : string * string => (kv.1, [kv.2]))
           <$> rendered_entries FormatFloat as_Stringer as_Time entries).
Proof.
  intros FF aS aT entries Hnd. now apply map_mode_one_key_per_entry_aux.
Qed.

Lemma map_mode_one_key_per_entry_witness :
  StructToQueryParams no_float no_method no_method
    (VMap (Some [("accountID", VString "acc"); ("query", VString "");
                 ("limit", VInt KInt 25)]))
  = list_to_map [("accountID", ["acc"]); ("limit", ["25"])].
Proof.
  exact (map_mode_one_key_per_entry no_float no_method no_method
           [("accountID", VString "acc"); ("query", VString "");
            ("limit", VInt KInt 25)]
           ltac:(apply (bool_decide_unpack _); vm_compute; reflexivity)).
Defined.

(** X20. In map mode the output does not depend on the order in which
    the iteration meets the entries, as long as the keys are pairwise
    distinct (Go leaves the order of a map iteration unspecified). *)
Theorem map_mode_order_independent :
  forall (FormatFloat : spec_float -> string)
         (as_Stringer as_Time : value -> option string)
         (entries entries' : list (string * value)),
    NoDup entries.*1 ->
    entries ≡ₚ entries' ->
    StructToQueryParams FormatFloat as_Stringer as_Time (VMap (Some entries))
    = StructToQueryParams FormatFloat as_Stringer as_Time (VMap (Some entries')).
Proof.
  intros FF aS aT entries entries' Hnd Hperm.
  assert (Hnd' : NoDup entries'.*1) by now rewrite <- Hperm.
  rewrite !map_mode_one_key_per_entry_aux by assumption.
  apply list_to_map_proper.
  - rewrite <- list_fmap_compose. now apply rendered_entries_NoDup.
  - unfold rendered_entries. now rewrite Hperm.
Qed.

Lemma map_mode_order_independent_witness :
  StructToQueryParams no_float no_method no_method
    (VMap (Some [("accountID", VString "acc"); ("query", VString "cats")]))
  = StructToQueryParams no_float no_method no_method
      (VMap (Some [("query", VString "cats"); ("accountID", VString "acc")])).
Proof.
  exact (map_mode_order_independent no_float no_method no_method
           [("accountID", VString "acc"); ("query", VString "cats")]
           [("query", VString "cats"); ("accountID", VString "acc")]
           ltac:(apply (bool_decide_unpack _); vm_compute; reflexivity)
           (perm_swap _ _ [])).
Defined.

Lemma dotted_key_inj (name : string) :
  Inj (=) (=) (fun k : string => name +:+ "." +:+ k).
Proof.
  intros k1 k2 E. apply append_inj_l in E. now injection E.
Qed.

(** X21. A map-valued field is flattened in dot notation: when the keys
    of the map are pairwise distinct, the output holds one key
    [name.key] per entry that is not nil and does not render empty, with
    the rendering of the entry as its single value. *)
Theorem map_field_dot_notation :
  forall (FormatFloat : spec_float -> string)
         (as_Stringer as_Time : value -> option string)
         (tag : string) (entries : list (string * value)),
    tag <> "" -> tag <> "-" ->
    NoDup entries.*1 ->
    StructToQueryParams FormatFloat as_Stringer as_Time
      (VStruct [(true, tag, VMap (Some entries))])
    = list_to_map
        ((fun kv : string * string => (tag_name tag +:+ "." +:+ kv.1, [kv.2]))
           <$> rendered_entries FormatFloat as_Stringer as_Time entries).
Proof.
  intros FF aS aT tag entries Htag1 Htag2 Hnd.
  cbn [internal.StructToQueryParams fold_left internal.add_field negb].
  destruct (String.eqb_spec tag ""); [contradiction|].
  destruct (String.eqb_spec tag "-"); [contradiction|].
  cbn [orb default].
  rewrite fold_add_sub_entry_rendered, fold_Add_fresh.
  - rewrite (right_id_L ∅ (∪)). now rewrite <- list_fmap_compose.
  - rewrite <- list_fmap_compose.
    change (NoDup (((fun k : string => tag_name tag +:+ "." +:+ k) ∘ fst)
                     <$> rendered_entries FF aS aT entries)).
    rewrite list_fmap_compose.
    pose proof (dotted_key_inj (tag_name tag)) as Hinj.
    apply (NoDup_fmap_2 _).
    now apply rendered_entries_NoDup.
  - intros; apply lookup_empty.
Qed.

Lemma map_field_dot_notation_witness :
  StructToQueryParams no_float no_method no_method
    (VStruct [(true, "m,omitempty", VMap (Some [("x", VString "1")]))])
  = list_to_map [("m.x", ["1"])].
Proof.
  exact (map_field_dot_notation no_float no_method no_method
           "m,omitempty" [("x", VString "1")]
           ltac:(discriminate) ltac:(discriminate)
           ltac:(apply (bool_decide_unpack _); vm_compute; reflexivity)).
Defined.

(** Only the name part of a [json] tag reaches the key: whatever
    follows the first comma ([omitempty] and the like) is dropped. *)
Theorem tag_name_drops_options :
  forall (name options : string),
    tag_name name = name ->
    tag_name (name +:+ "," +:+ options) = name.
Proof.
  intros name options. induction name as [|c name IH]; intros H.
  - reflexivity.
  - change (tag_name (String c (name +:+ "," +:+ options)) = String c name).
    cbn [tag_name] in H |- *. destruct (Ascii.eqb c ","); [discriminate|].
    injection H as H. now rewrite IH.
Qed.

Lemma tag_name_drops_options_witness :
  tag_name "accountIDs,omitempty" = "accountIDs".
Proof.
  exact (tag_name_drops_options "accountIDs" "omitempty" eq_refl).
Defined.

Lemma add_plain_query FF aS aT (query : Params) :
  (forall k x, query !! k = Some (Some x) -> aS x = None /\ aT x = None) ->
  StructToQueryParams FF aS aT (Params_value query) = ∅.
Proof.
  intros Hplain. unfold Params_value.
  cbn [internal.StructToQueryParams default].
  apply fold_left_unchanged. intros [k v] Hin.
  apply in_map_iff in Hin as ([k' x] & Heq & Hin).
  cbn [fst snd] in Heq. injection Heq as <- <-.
  apply list_elem_of_In, elem_of_map_to_list in Hin.
  destruct x as [x|]; [|reflexivity].
  destruct (Hplain k' x Hin) as [HS HT].
  now apply add_map_entry_interface.
Qed.

(** X22. A [map[string]interface{}] whose values have no [String]
    method and are not [time.Time] (plain strings, numbers, booleans,
    pointers to them, slices) encodes to nothing at all: its entries
    have Kind Interface, which the encoder renders through those two
    type assertions only. *)
Theorem interface_map_encodes_to_nothing :
  forall (FormatFloat : spec_float -> string)
         (as_Stringer as_Time : value -> option string)
         (query : Params),
    (forall k x, query !! k = Some (Some x) ->
                 as_Stringer x = None /\ as_Time x = None) ->
    StructToQueryParams FormatFloat as_Stringer as_Time (Params_value query) = ∅.
Proof.
  intros FF aS aT query Hplain. now apply add_plain_query.
Qed.

Lemma interface_map_encodes_to_nothing_witness :
  StructToQueryParams no_float no_method no_method
    (Params_value {[ "accountID" := Some (VString "acc");
                     "limit" := Some (VPtr (Some (VInt KInt 25))) ]})
  = ∅.
Proof.
  apply (interface_map_encodes_to_nothing no_float no_method no_method).
  intros k x _. split; reflexivity.
Defined.

(** ** Client construction *)

Lemma substring_all (s : string) : substring 0 (String.length s) s = s.
Proof.
  induction s as [|c s IH]; [reflexivity|]. cbn. now rewrite IH.
Qed.

Lemma substring_append_r (a b : string) :
  substring (String.length a) (String.length b) (a +:+ b) = b.
Proof.
  induction a as [|c a IH]; [apply substring_all | exact IH].
Qed.

Lemma HasSuffix_append (s suffix : string) : HasSuffix (s +:+ suffix) suffix = true.
Proof.
  unfold HasSuffix. rewrite length_append.
  replace (String.length s + String.length suffix - String.length suffix)%nat
    with (String.length s) by lia.
  rewrite substring_append_r, String.eqb_refl, andb_true_r.
  apply Nat.leb_le. lia.
Qed.

(** X23. The base URL of every client that [New] returns ends with a
    slash: it is the configured base URL, with a slash appended when it
    did not end with one. *)
Theorem New_normalizes_base_URL :
  forall (Getenv : string -> string) (Version : string)
         (opts : list ClientOption) (client : BeeperDesktop)
         (err : option error) (made : list construction),
    New Getenv Version opts = ((Some client, err), made) ->
    HasSuffix (baseURL client) "/" = true /\
    baseURL client
    = if HasSuffix (BaseURL (resolved_config Getenv Version opts)) "/"
      then BaseURL (resolved_config Getenv Version opts)
      else BaseURL (resolved_config Getenv Version opts) +:+ "/".
Proof.
  intros Getenv Version opts client err made. unfold New.
  destruct (String.eqb _ ""); [discriminate|].
  destruct (HTTPClient _); intros [= <- _ _]; cbn [baseURL];
    (destruct (HasSuffix (BaseURL _) "/") eqn:E; cbn [negb];
     [split; [exact E | reflexivity]
     | split; [apply HasSuffix_append | reflexivity]]).
Qed.

Lemma New_normalizes_base_URL_witness :
  HasSuffix (baseURL example_com_client) "/" = true /\
  baseURL example_com_client = "https://api.example.com/".
Proof.
  exact (New_normalizes_base_URL empty_environment "0.1.0"
           [WithAccessToken "token"; WithBaseURL "https://api.example.com"]
           example_com_client None example_com_made eq_refl).
Defined.

(** With a token in the environment, no base URL there and no
    option, [New] builds the client of the defaults: the local base URL
    with its slash, a timeout of 30 seconds, two retries, the versioned
    user agent, a fresh transport with that timeout, a retry engine for
    two retries, and the six resource handles. *)
Theorem New_defaults :
  forall (Getenv : string -> string) (Version : string),
    Getenv "BEEPER_ACCESS_TOKEN" <> "" ->
    Getenv "BEEPER_DESKTOP_BASE_URL" = "" ->
    New Getenv Version []
    = ((Some (mkBeeperDesktop (Getenv "BEEPER_ACCESS_TOKEN")
                "http://localhost:23373/" (30 * Second) 2
                ("beeper-desktop-api-go/" +:+ Version)
                {| client_Timeout := 30 * Second |} (NewRetryLogic 2)),
        None),
       [NewTransport {| client_Timeout := 30 * Second |};
        NewRetryEngine (NewRetryLogic 2);
        NewResource "Accounts"; NewResource "App"; NewResource "Chats";
        NewResource "Contacts"; NewResource "Messages"; NewResource "Token"]).
Proof.
  intros Getenv Version Htoken Hurl.
  unfold New, resolved_config, getEnvWithDefault. cbn [fold_left].
  rewrite Hurl. cbn [AccessToken BaseURL Timeout MaxRetries UserAgent HTTPClient].
  destruct (String.eqb_spec (Getenv "BEEPER_ACCESS_TOKEN") ""); [contradiction|].
  reflexivity.
Qed.

Lemma New_defaults_witness :
  fst (fst (New token_in_environment "0.1.0" []))
  = Some (mkBeeperDesktop "secret" "http://localhost:23373/" (30 * Second) 2
            "beeper-desktop-api-go/0.1.0" {| client_Timeout := 30 * Second |}
            (NewRetryLogic 2)).
Proof.
  exact (f_equal (fun r => fst (fst r))
           (New_defaults token_in_environment "0.1.0"
              ltac:(discriminate) eq_refl)).
Defined.

(** X24. Options apply in call order over the environment: the last
    [WithAccessToken] decides.  A non-empty token given last yields a
    client with that token, whatever the environment and the earlier
    options say; an empty token given last makes [New] fail, even with a
    token in the environment. *)
Theorem New_last_token_wins :
  forall (Getenv : string -> string) (Version : string)
         (opts : list ClientOption) (token : string),
    AccessToken (resolved_config Getenv Version (opts ++ [WithAccessToken token]))
    = token /\
    (token <> "" ->
     exists client made,
       New Getenv Version (opts ++ [WithAccessToken token])
       = ((Some client, None), made) /\ accessToken client = token) /\
    (token = "" ->
     exists err,
       New Getenv Version (opts ++ [WithAccessToken token])
       = ((None, Some err), []) /\ kind_of err = KAuthentication).
Proof.
  intros Getenv Version opts token.
  assert (E : AccessToken (resolved_config Getenv Version
                             (opts ++ [WithAccessToken token])) = token).
  { unfold resolved_config. now rewrite fold_left_app. }
  split; [exact E | split]; intros Htoken; unfold New; rewrite E.
  - destruct (String.eqb_spec token ""); [contradiction|].
    destruct (HTTPClient _); do 2 eexists; split; reflexivity.
  - subst token. eexists. split; reflexivity.
Qed.

Lemma New_last_token_wins_witness :
  (exists client made,
     New empty_environment "0.1.0" ([WithAccessToken ""] ++ [WithAccessToken "t"])
     = ((Some client, None), made) /\ accessToken client = "t") /\
  (exists err,
     New token_in_environment "0.1.0" ([] ++ [WithAccessToken ""])
     = ((None, Some err), []) /\ kind_of err = KAuthentication).
Proof.
  split.
  - exact (proj1 (proj2 (New_last_token_wins empty_environment "0.1.0"
                           [WithAccessToken ""] "t")) ltac:(discriminate)).
  - exact (proj2 (proj2 (New_last_token_wins token_in_environment "0.1.0"
                           [] "")) eq_refl).
Defined.

(** X25. [New] returns a client exactly when it returns no error.  The
    client's retry engine is the one [NewRetryLogic] makes for its retry
    count; its transport is the caller's when one was given, and then no
    transport is constructed; otherwise it is a fresh transport with the
    configured timeout. *)
Theorem New_builds_consistent_client :
  forall (Getenv : string -> string) (Version : string)
         (opts : list ClientOption),
    let config := resolved_config Getenv Version opts in
    (exists e, New Getenv Version opts = ((None, Some e), [])) \/
    (exists client made,
       New Getenv Version opts = ((Some client, None), made) /\
       retryLogic client = NewRetryLogic (client_maxRetries client) /\
       client_maxRetries client = MaxRetries config /\
       timeout client = Timeout config /\
       userAgent client = UserAgent config /\
       match HTTPClient config with
       | Some h => httpClient client = h /\
                   forall t, ~ In (NewTransport t) made
       | None => httpClient client = {| client_Timeout := Timeout config |} /\
                 In (NewTransport (httpClient client)) made
       end).
Proof.
  intros Getenv Version opts config. unfold New. fold config.
  destruct (String.eqb (AccessToken config) "").
  - left. eexists. reflexivity.
  - right. destruct (HTTPClient config) as [h|];
      do 2 eexists; (split; [reflexivity|]); repeat split.
    + intros t [H|H]; [discriminate|].
      repeat (destruct H as [H|H]; [discriminate|]). exact H.
    + now left.
Qed.

(** ** Request executor *)

Lemma Do_first_success {W : Type} (ctx_Err : W -> option error)
    (select_After_Done : Z -> W -> wake * W) (overflow : Z)
    (r : RetryLogic) (fn : W -> option error * W) (w w1 : W) :
  0 <= maxRetries r ->
  ctx_Err w = None ->
  fn w = (None, w1) ->
  Do ctx_Err select_After_Done overflow r fn w = (None, w1, [Invoke]).
Proof.
  intros Hr Hctx Hfn. unfold Do.
  destruct (iterations_positive r Hr) as [n ->].
  cbn [Do_loop]. now rewrite Hctx, Hfn.
Qed.

Lemma TrimPrefix_slash (p : string) : TrimPrefix ("/" +:+ p) "/" = p.
Proof.
  unfold TrimPrefix.
  change ("/" +:+ p) with (String "/" p).
  cbn [String.prefix String.length substring].
  destruct (ascii_dec "/" "/") as [_|N]; [|contradiction].
  replace (S (String.length p) - 1)%nat with (String.length p) by lia.
  destruct p; cbn [String.prefix]; apply substring_all.
Qed.

Lemma TrimPrefix_no_slash (p : string) :
  String.prefix "/" p = false -> TrimPrefix p "/" = p.
Proof. intros H. unfold TrimPrefix. now rewrite H. Qed.

Section ExecutorFacts.

Context {W B R : Type}.
Variable json_Marshal : B -> error + string.
Variable NewRequest_error : string -> string -> option error.
Variable httpClient_Do : http_Client -> W -> Request -> (error + Response) * W.
Variable json_Unmarshal_error : string -> errorResp.
Variable json_Unmarshal_result : string -> error + R.
Variable FormatFloat : spec_float -> string.
Variable as_Stringer : value -> option string.
Variable as_Time : value -> option string.
Variable Encode : Values -> string.
Variable ctx_Err : W -> option error.
Variable select_After_Done : Z -> W -> wake * W.
Variable overflow : Z.

Local Abbreviation doRequestOnce :=
  (beeperdesktop.doRequestOnce json_Marshal NewRequest_error httpClient_Do
     json_Unmarshal_error json_Unmarshal_result).
Local Abbreviation DoRequest :=
  (beeperdesktop.DoRequest json_Marshal NewRequest_error httpClient_Do
     json_Unmarshal_error json_Unmarshal_result ctx_Err select_After_Done
     overflow).

Lemma DoRequest_is_doRequestOnce (c : BeeperDesktop) (method path : string)
    (body : option B) (result : bool) (w : W) :
  0 <= maxRetries (retryLogic c) ->
  ctx_Err w = None ->
  DoRequest c method path body result w
  = ((doRequestOnce c method path body result w).1.1,
     ((doRequestOnce c method path body result w).2,
      (doRequestOnce c method path body result w).1.2),
     [Invoke]).
Proof.
  intros Hr Hctx. unfold beeperdesktop.DoRequest.
  destruct (doRequestOnce c method path body result w)
    as [[[e|] decoded] w'] eqn:E; cbn [fst snd].
  - erewrite Do_first_failure; [| exact Hr | exact Hctx |].
    + reflexivity.
    + cbn [fst snd]. rewrite E. destruct decoded; reflexivity.
  - erewrite Do_first_success; [| exact Hr | exact Hctx |].
    + reflexivity.
    + cbn [fst snd]. rewrite E. destruct decoded; reflexivity.
Qed.

End ExecutorFacts.

(** X26. With a retry count that is not negative and a live context,
    [DoRequest] is one call of [doRequestOnce] and no more: it returns
    that call's error (a transport failure, a 429 or a 5xx included),
    the value that call decoded, and the world that call left, without
    sleeping. *)
Theorem DoRequest_single_attempt :
  forall (W B R : Type)
         (json_Marshal : B -> error + string)
         (NewRequest_error : string -> string -> option error)
         (httpClient_Do : http_Client -> W -> Request -> (error + Response) * W)
         (json_Unmarshal_error : string -> errorResp)
         (json_Unmarshal_result : string -> error + R)
         (ctx_Err : W -> option error)
         (select_After_Done : Z -> W -> wake * W) (overflow : Z)
         (c : BeeperDesktop) (method path : string) (body : option B)
         (result : bool) (w : W),
    0 <= maxRetries (retryLogic c) ->
    ctx_Err w = None ->
    let once :=
      beeperdesktop.doRequestOnce json_Marshal NewRequest_error httpClient_Do
        json_Unmarshal_error json_Unmarshal_result c method path body result w in
    beeperdesktop.DoRequest json_Marshal NewRequest_error httpClient_Do
      json_Unmarshal_error json_Unmarshal_result ctx_Err select_After_Done
      overflow c method path body result w
    = (once.1.1, (once.2, once.1.2), [Invoke]).
Proof.
  intros. now apply DoRequest_is_doRequestOnce.
Qed.

Lemma DoRequest_single_attempt_witness :
  beeperdesktop.DoRequest (B := unit) (fun _ => inr "{}") (fun _ _ => None)
    always_503 no_json raw_result never_cancelled timer_fires overflow_amd64
    example_client "GET" "/v0/get-accounts" None true 0%nat
  = (Some (InternalServerError (mkAPIError 503 "unavailable" "" ∅)),
     (1%nat, None), [Invoke]).
Proof.
  exact (DoRequest_single_attempt nat unit string (fun _ => inr "{}")
           (fun _ _ => None) always_503 no_json raw_result never_cancelled
           timer_fires overflow_amd64 example_client "GET" "/v0/get-accounts"
           None true 0%nat ltac:(cbn; lia) eq_refl).
Defined.

(** X27. The request [doRequestOnce] builds: a path reaches the same URL
    with or without its leading slash (one slash is stripped, the base
    URL follows unchanged); the Authorization header is the bearer
    token, Accept is JSON, User-Agent is the client's, and Content-Type
    is set exactly when there is a body. *)
Theorem build_request_shape :
  forall (c : BeeperDesktop) (method p : string) (reqBody : option string),
    String.prefix "/" p = false ->
    let req := beeperdesktop.build_request c method p reqBody in
    beeperdesktop.build_request c method ("/" +:+ p) reqBody = req /\
    req_URL req = baseURL c +:+ p /\
    req_Method req = method /\ req_Body req = reqBody /\
    req_Header req !! "Authorization" = Some ("Bearer " +:+ accessToken c) /\
    req_Header req !! "Accept" = Some "application/json" /\
    req_Header req !! "User-Agent" = Some (userAgent c) /\
    req_Header req !! "Content-Type"
    = match reqBody with Some _ => Some "application/json" | None => None end.
Proof.
  intros c method p reqBody Hp req. subst req.
  unfold beeperdesktop.build_request.
  rewrite TrimPrefix_slash, (TrimPrefix_no_slash p Hp).
  cbn [req_URL req_Method req_Body req_Header].
  repeat split; destruct reqBody;
    repeat (rewrite lookup_insert_ne by discriminate);
    rewrite ?lookup_insert_eq, ?lookup_empty; reflexivity.
Qed.

Lemma build_request_shape_witness :
  beeperdesktop.build_request example_client "GET" "/v0/get-accounts" None
  = beeperdesktop.build_request example_client "GET" "v0/get-accounts" None /\
  req_URL (beeperdesktop.build_request example_client "GET" "v0/get-accounts" None)
  = "http://localhost:23373/v0/get-accounts".
Proof.
  destruct (build_request_shape example_client "GET" "v0/get-accounts" None
              eq_refl) as (H1 & H2 & _).
  split; [exact H1 | exact H2].
Defined.

Lemma DoRequestWithQuery_plain {W B R : Type}
    (json_Marshal : B -> error + string)
    (NewRequest_error : string -> string -> option error)
    (httpClient_Do : http_Client -> W -> Request -> (error + Response) * W)
    (json_Unmarshal_error : string -> errorResp)
    (json_Unmarshal_result : string -> error + R)
    (FormatFloat : spec_float -> string)
    (as_Stringer as_Time : value -> option string)
    (Encode : Values -> string)
    (ctx_Err : W -> option error)
    (select_After_Done : Z -> W -> wake * W) (overflow : Z)
    (c : BeeperDesktop) (method path : string) (query : Params)
    (result : bool) (w : W) :
  (forall k x, query !! k = Some (Some x) ->
               as_Stringer x = None /\ as_Time x = None) ->
  beeperdesktop.DoRequestWithQuery json_Marshal NewRequest_error httpClient_Do
    json_Unmarshal_error json_Unmarshal_result FormatFloat as_Stringer
    as_Time Encode ctx_Err select_After_Done overflow
    c method path query result w
  = beeperdesktop.DoRequest json_Marshal NewRequest_error httpClient_Do
      json_Unmarshal_error json_Unmarshal_result ctx_Err select_After_Done
      overflow c method path None result w.
Proof.
  intros. unfold beeperdesktop.DoRequestWithQuery.
  rewrite add_plain_query by assumption.
  now rewrite bool_decide_eq_true_2.
Qed.

(** X28. Query parameters handed to [DoRequestWithQuery] as plain values
    (values without a [String] method that are not [time.Time]) never
    reach the request: the call is [DoRequest] on the bare path, so two
    calls that differ in such parameters only are the same call. *)
Theorem DoRequestWithQuery_drops_plain_values :
  forall (W B R : Type)
         (json_Marshal : B -> error + string)
         (NewRequest_error : string -> string -> option error)
         (httpClient_Do : http_Client -> W -> Request -> (error + Response) * W)
         (json_Unmarshal_error : string -> errorResp)
         (json_Unmarshal_result : string -> error + R)
         (FormatFloat : spec_float -> string)
         (as_Stringer as_Time : value -> option string)
         (Encode : Values -> string)
         (ctx_Err : W -> option error)
         (select_After_Done : Z -> W -> wake * W) (overflow : Z)
         (c : BeeperDesktop) (method path : string) (query : Params)
         (result : bool) (w : W),
    (forall k x, query !! k = Some (Some x) ->
                 as_Stringer x = None /\ as_Time x = None) ->
    beeperdesktop.DoRequestWithQuery json_Marshal NewRequest_error httpClient_Do
      json_Unmarshal_error json_Unmarshal_result FormatFloat as_Stringer
      as_Time Encode ctx_Err select_After_Done overflow
      c method path query result w
    = beeperdesktop.DoRequest json_Marshal NewRequest_error httpClient_Do
        json_Unmarshal_error json_Unmarshal_result ctx_Err select_After_Done
        overflow c method path None result w.
Proof.
  intros. now apply DoRequestWithQuery_plain.
Qed.

Lemma DoRequestWithQuery_drops_plain_values_witness :
  beeperdesktop.DoRequestWithQuery (B := unit) (fun _ => inr "{}")
    (fun _ _ => None) always_503 no_json raw_result no_float no_method
    no_method (fun _ => "encoded") never_cancelled timer_fires overflow_amd64
    example_client "GET" "/v0/search-users"
    {[ "accountID" := Some (VString "acc"); "query" := Some (VString "cats") ]}
    true 0%nat
  = beeperdesktop.DoRequest (B := unit) (fun _ => inr "{}") (fun _ _ => None)
      always_503 no_json raw_result never_cancelled timer_fires overflow_amd64
      example_client "GET" "/v0/search-users" None true 0%nat.
Proof.
  apply (DoRequestWithQuery_drops_plain_values nat unit string).
  intros k x _. split; reflexivity.
Defined.



(** ** An unbounded loop *)

Lemma ToSlice_loop_endless {W T : Type} `{client : RequestClient W T} :
  (forall w endpoint query,
      exists x rest p w',
        DoRequestWithQuery w "GET" endpoint query
        = (inr (mkCursor (x :: rest) (Some p)), w') /\ HasMore p = true) ->
  forall fuel (it : Iterator T) (w : W) acc,
    hasMore it = true -> ToSlice_loop fuel it w acc = None.
Proof.
  intros Hsrv. induction fuel as [|fuel IH]; intros it w acc Hmore;
    [reflexivity|].
  cbn [ToSlice_loop]. unfold HasNext, Next. rewrite Hmore, orb_true_r.
  destruct (currentPage it !! currentIdx it) as [item|].
  - apply IH. exact Hmore.
  - cbn [negb]. unfold fetchNextPage.
    destruct (Hsrv w (path it) (fetch_params it)) as (x & rest & p & w' & E & Hp).
    rewrite E. cbn [Pagination Items currentPage].
    apply IH. cbn [set_currentIdx hasMore]. exact Hp.
Qed.

(** X30. [ToSlice] has no bound of its own: against a client that
    answers every request with a non-empty page announcing more, the
    loop never ends, whatever the iterator's buffer holds. *)
Theorem ToSlice_never_ends_on_endless_pages :
  forall (W T : Type) (client : RequestClient W T),
    (forall w endpoint query,
        exists x rest p w',
          DoRequestWithQuery w "GET" endpoint query
          = (inr (mkCursor (x :: rest) (Some p)), w') /\ HasMore p = true) ->
    forall (fuel : nat) (it : Iterator T) (w : W),
      hasMore it = true -> ToSlice fuel it w = None.
Proof.
  intros W T client Hsrv fuel it w Hmore.
  now apply ToSlice_loop_endless.
Qed.

Lemma ToSlice_never_ends_on_endless_pages_witness :
  ToSlice (client := server_client endless) 1000
    (NewIterator "/v0/search-chats" ∅) []
  = None.
Proof.
  apply (ToSlice_never_ends_on_endless_pages (list request) Z
           (server_client endless)); [|reflexivity].
  intros w endpoint query.
  exists 7, [], (more_after "next"), (w ++ [("GET", endpoint, query)]).
  split; reflexivity.
Defined.
